(** * pymodulo: vehicle selection for drive-by sensing

    A shallow embedding of the selection and evaluation core of pymodulo
    (metrics.py, VehicleSelector/VehicleSelector.py,
    VehicleSelector/GreedyVehicleSelector.py) and of the temporal
    bucketing of DataLoader/DataLoader.py, with the properties that the
    specification states about them.

    Conventions.
    - A pandas dataframe is the list of its rows, in row order; a boolean
      mask [df[cond]] is a [filter], which keeps the row order.
    - Python and numpy integers are [Z]; lengths are [nat].
    - A Python exception is a value of [exception]; code that can raise
      returns a [result].
    - A Python set is a type with the operations that the code uses,
      [py.PySet]: its iteration order is left to the implementation and
      may depend on the history of the set; [py.table] is the set of
      CPython.
    - [len(a) / len(b) * 100] is computed in [Q]. Both quotients that the
      properties below are about (n/n and 0/n) are exact in binary
      floating point as well. *)

From Stdlib Require Import ZArith QArith List Sorted Ascii Lia Lqa.
From stdpp Require Import gmap strings list sorting pretty.

Close Scope Q_scope.
Local Open Scope Z_scope.

(** ** Exceptions and results *)

(** Every [ValueError] of the modelled code, by the place that raises it. *)
Inductive value_error : Type :=
| cannot_select_more          (* VehicleSelector.__init__ *)
| metric_not_supported (coverage_metric : string)
                              (* VehicleSelector.__decide_metric_function *)
| max_of_empty_sequence       (* the builtin max() on an empty iterable *)
| collection_not_populated.   (* DataLoader.compute_temporal_id_and_update_db *)

Inductive exception : Type :=
| ValueError (why : value_error)
| ZeroDivisionError.

Inductive result (A : Type) : Type :=
| Ok (a : A)
| Raise (e : exception).

Arguments Ok {A} a.
Arguments Raise {A} e.

#[global] Instance result_ret : MRet result := fun A a => Ok a.

#[global] Instance result_bind : MBind result := fun A B k r =>
  match r with
  | Ok a => k a
  | Raise e => Raise e
  end.

(** ** The Python, pandas and numpy operations that the code calls *)

Module py.

(** [Series.unique().tolist()]: the distinct values, in order of first
    appearance. *)
Fixpoint unique {A : Type} `{EqDecision A} (l : list A) : list A :=
  match l with
  | [] => []
  | x :: t => x :: filter (fun y => y <> x) (unique t)
  end.

(** [Series.isin(values)], for one entry of the series. *)
Definition isin {A : Type} `{EqDecision A} (x : A) (values : list A) : bool :=
  bool_decide (x ∈ values).

(** The builtin [max(iterable, key=key)]: the first item, in iteration
    order, whose key is not exceeded by any other; [ValueError] on an
    empty iterable. *)
Fixpoint max_from {A : Type} (key : A -> nat) (best : A) (l : list A) : A :=
  match l with
  | [] => best
  | x :: t => if (key best <? key x)%nat then max_from key x t
              else max_from key best t
  end.

Definition max {A : Type} (key : A -> nat) (l : list A) : result A :=
  match l with
  | [] => Raise (ValueError max_of_empty_sequence)
  | x :: t => Ok (max_from key x t)
  end.

(** [range(a, b)]. *)
Definition range (a b : Z) : list Z :=
  map (fun n => a + Z.of_nat n) (seq 0 (Z.to_nat (b - a))).

(** [numpy.arange(start, stop, step)] on integers: [ceil((stop - start) /
    step)] values [start, start + step, ...] (none when that number is
    not positive); a zero step raises [ZeroDivisionError]. *)
Fixpoint arange_from (start step : Z) (n : nat) : list Z :=
  match n with
  | O => []
  | S m => start :: arange_from (start + step) step m
  end.

Definition arange_length (start stop step : Z) : nat :=
  Z.to_nat (- ((start - stop) / step)).

Definition arange (start stop step : Z) : result (list Z) :=
  if step =? 0 then Raise ZeroDivisionError
  else Ok (arange_from start step (arange_length start stop step)).

(** A stable insertion sort, for the orders below. *)
Fixpoint insert_sorted {A : Type} (leb : A -> A -> bool) (x : A) (l : list A)
  : list A :=
  match l with
  | [] => [x]
  | y :: t => if leb x y then x :: y :: t else y :: insert_sorted leb x t
  end.

Definition sort_by {A : Type} (leb : A -> A -> bool) (l : list A) : list A :=
  foldr (insert_sorted leb) [] l.

(** Iteration in ascending order, as the specification asks for. *)
Definition ascending_order (l : list Z) : list Z :=
  sort_by Z.leb (unique l).

(** A [set] of integers, by what the selector does with one: it builds
    the set from a list, iterates over it and takes an element out
    ([s -= set([v])]).  The language leaves the iteration order open, and
    the order need not be a function of the elements: that of CPython
    depends on what was taken out before. *)
Class PySet (S : Type) : Type := {
  set_of : list Z -> S;
  isub : S -> Z -> S;
  iter : S -> list Z
}.

(** [len(s)]. *)
Definition len {S : Type} `{PySet S} (s : S) : nat := length (iter s).

(** Iteration visits the elements of the set, and nothing else. *)
Class PySetLaws (S : Type) `{PySet S} : Prop := {
  elem_of_set_of : forall (l : list Z) (v : Z), v ∈ iter (set_of l) <-> v ∈ l;
  elem_of_isub : forall (s : S) (v w : Z),
    w ∈ iter (isub s v) <-> w ∈ iter s /\ w <> v
}.

(** The set of CPython (Objects/setobject.c), for integers of absolute
    value below 2^61 - 1 whose hashes are pairwise distinct modulo 8.
    The table has [mask + 1] slots, a power of two and at least 8; a key
    sits in slot [hash & mask], and as the hashes differ modulo 8 no two
    keys ever meet in a slot.  Iteration walks the slots upwards.  [keys]
    are the active entries, and [fill] counts them together with the
    dummy entries that discarded keys leave behind. *)
Definition hash (x : Z) : Z := if x =? -1 then -2 else x.

Record table : Type := {
  mask : Z;
  keys : list Z;
  fill : nat
}.

Definition used (so : table) : nat := length (keys so).

Definition PySet_MINSIZE : Z := 8.

(** [while (newsize <= minused) newsize <<= 1]. *)
Fixpoint grow (fuel : nat) (newsize minused : Z) : Z :=
  match fuel with
  | O => newsize
  | S fuel =>
      if newsize <=? minused then grow fuel (Z.shiftl newsize 1) minused
      else newsize
  end.

(** [set_table_resize]: the active keys go into a fresh table, the dummy
    entries do not. *)
Definition set_table_resize (so : table) (minused : Z) : table :=
  {| mask := grow (Z.to_nat minused) PySet_MINSIZE minused - 1;
     keys := keys so;
     fill := used so |}.

(** [set_table_resize(so, so->used>50000 ? so->used*2 : so->used*4)]. *)
Definition resized (so : table) : table :=
  set_table_resize so
    (if 50000 <? Z.of_nat (used so) then Z.of_nat (used so) * 2
     else Z.of_nat (used so) * 4).

(** [set_add_key], on a table without dummy entries. *)
Definition set_add_key (so : table) (key : Z) : table :=
  if bool_decide (key ∈ keys so) then so
  else
    let so := {| mask := mask so; keys := keys so ++ [key];
                 fill := S (fill so) |} in
    if Z.of_nat (fill so) * 5 <? mask so * 3 then so else resized so.

(** [so -= set([key])], that is [set_difference_update_internal]: the key
    leaves a dummy entry, and the table is rebuilt when more than a
    fourth of its slots are dummy entries. *)
Definition set_difference_update (so : table) (key : Z) : table :=
  let so := {| mask := mask so; keys := filter (fun k => k <> key) (keys so);
               fill := fill so |} in
  if Z.of_nat (fill so - used so) <=? mask so / 4 then so else resized so.

(** [set_next], until the table is exhausted. *)
Definition set_next (so : table) : list Z :=
  sort_by (fun a b => Z.land (hash a) (mask so) <=? Z.land (hash b) (mask so))
          (keys so).

#[global] Instance cpython : PySet table := {|
  set_of l := fold_left set_add_key l
                {| mask := PySet_MINSIZE - 1; keys := []; fill := 0 |};
  isub := set_difference_update;
  iter := set_next
|}.

(** Index order of [Series.value_counts()]: by descending count, values
    of equal count in order of first appearance. *)
Definition count_occurrences (x : Z) (column : list Z) : nat :=
  length (filter (fun y => y = x) column).

Definition value_counts_index (column : list Z) : list Z :=
  sort_by (fun a b => (count_occurrences b column <=? count_occurrences a column)%nat)
          (unique column).

End py.

(** ** The vehicle mobility dataframe

    One row of the dataframe built by
    [DataLoader.fetch_data_for_vehicle_selection]: the number of data
    points ([count]) of a vehicle in a stratum during a time segment. *)

Record row : Type := {
  vehicle_id : Z;
  stratum_id : Z;
  temporal_id : Z;
  count : Z;
  spatiotemporal_segment : string
}.

Abbreviation dataframe := (list row).

(** [df[df['vehicle_id'] == vehicle]] and [df[df['vehicle_id'] != vehicle]]. *)
Definition rows_of (vehicle : Z) (df : dataframe) : dataframe :=
  filter (fun r => vehicle_id r = vehicle) df.

Definition rows_not_of (vehicle : Z) (df : dataframe) : dataframe :=
  filter (fun r => vehicle_id r <> vehicle) df.

(** [len(df['vehicle_id'].unique())]: the number of distinct agents. *)
Definition distinct_agents (df : dataframe) : Z :=
  Z.of_nat (length (py.unique (map vehicle_id df))).

(** ** metrics.py *)

Module metrics.

Definition metric_function : Type := list Z -> dataframe -> result Q.

Definition percentage_coverage : metric_function :=
  fun selected_vehicles_list df =>
  let all_vehicles_coverage_set :=
    py.unique (map spatiotemporal_segment df) in
  let selected_vehicles_coverage_set :=
    py.unique (map spatiotemporal_segment
      (filter (fun r => py.isin (vehicle_id r) selected_vehicles_list = true) df)) in
  if Nat.eqb (length all_vehicles_coverage_set) 0 then Raise ZeroDivisionError
  else Ok ((inject_Z (Z.of_nat (length selected_vehicles_coverage_set))
            / inject_Z (Z.of_nat (length all_vehicles_coverage_set)) * 100)%Q).

(** The metrics with their string identifiers as the keys. *)
Definition METRICS_LIST : gmap string metric_function :=
  {[ "percentage_coverage"%string := percentage_coverage ]}.

End metrics.

(** ** VehicleSelector/VehicleSelector.py *)

Module VehicleSelector.

(** The [coverage_metric] argument: a string, or anything else (a
    function). *)
Inductive coverage_metric : Type :=
| metric_name (identifier : string)
| metric_callable (f : metrics.metric_function).

Record t : Type := {
  num_to_select : Z;
  train_test_split_timestamp : Z;
  df : dataframe;
  df_train : dataframe;
  df_test : dataframe;
  coverage_metric_function : metrics.metric_function
}.

Definition train_test_splitter (df : dataframe) (train_test_split_timestamp : Z)
  : dataframe * dataframe :=
  (filter (fun r => temporal_id r <= train_test_split_timestamp) df,
   filter (fun r => temporal_id r > train_test_split_timestamp) df).

(** [registry] is the value of [metrics.METRICS_LIST] at the time of the
    call. *)
Definition decide_metric_function (registry : gmap string metrics.metric_function)
    (metric : coverage_metric) : result metrics.metric_function :=
  match metric with
  | metric_name identifier =>
      match registry !! identifier with
      | Some coverage_metric_function => Ok coverage_metric_function
      | None => Raise (ValueError (metric_not_supported identifier))
      end
  | metric_callable f => Ok f
  end.

Definition init (registry : gmap string metrics.metric_function)
    (num_to_select : Z) (df : dataframe) (train_test_split_timestamp : Z)
    (metric : coverage_metric) : result t :=
  if distinct_agents df <? num_to_select
  then Raise (ValueError cannot_select_more)
  else
    let '(df_train, df_test) := train_test_splitter df train_test_split_timestamp in
    coverage_metric_function ← decide_metric_function registry metric;
    Ok {| num_to_select := num_to_select;
          train_test_split_timestamp := train_test_split_timestamp;
          df := df;
          df_train := df_train;
          df_test := df_test;
          coverage_metric_function := coverage_metric_function |}.

(** [test]: the selected vehicles and the coverage they obtain on the
    test data. *)
Definition test (self : t) (selected_vehicles : list Z) : result (list Z * Q) :=
  coverage ← coverage_metric_function self selected_vehicles (df_test self);
  Ok (selected_vehicles, coverage).

End VehicleSelector.

(** ** VehicleSelector/GreedyVehicleSelector.py *)

Module GreedyVehicleSelector.

(** The variables of [__max_coverage_greedy_logic] that live across the
    iterations of its [for i] loop; [S] is the type of Python sets. *)
Record state (S : Type) : Type := {
  current_vehicles : list Z;
  current_coverage : list string;
  current_count : list nat;
  iteration_count : list Z;
  df_train : dataframe;
  total_vehicles : S
}.

Arguments current_vehicles {S} _.
Arguments current_coverage {S} _.
Arguments current_count {S} _.
Arguments iteration_count {S} _.
Arguments df_train {S} _.
Arguments total_vehicles {S} _.

(** [(candidate_vehicle, candidate_coverage, candidate_count)]. *)
Definition candidate : Type := Z * list string * nat.

(** [set(current_coverage).union(sel_vehicle_coverage)] for [vehicle]. *)
Definition new_coverage (df_train : dataframe) (current_coverage : list string)
    (vehicle : Z) : gset string :=
  let df_sel := rows_of vehicle df_train in
  let sel_vehicle_coverage : gset string :=
    list_to_set (map spatiotemporal_segment df_sel) in
  list_to_set current_coverage ∪ sel_vehicle_coverage.

(** [len(new_coverage)] for [vehicle]. *)
Definition new_count (df_train : dataframe) (current_coverage : list string)
    (vehicle : Z) : nat :=
  size (new_coverage df_train current_coverage vehicle).

(** The body of [for vehicle in total_vehicles].  [list(new_coverage)]
    lists the set in some order; the code reads it back only through
    [set(current_coverage)]. *)
Definition consider (df_train : dataframe) (current_coverage : list string)
    (c : candidate) (vehicle : Z) : candidate :=
  let new_coverage := new_coverage df_train current_coverage vehicle in
  let new_count := new_count df_train current_coverage vehicle in
  if (snd c <? new_count)%nat
  then (vehicle, elements new_coverage, new_count)
  else c.

Section Pool.

Context {S : Type} {total : py.PySet S}.

(** [new_count] for [vehicle] in the state [st], and [current_count[-1]]. *)
Definition union_count (st : state S) (vehicle : Z) : nat :=
  new_count (df_train st) (current_coverage st) vehicle.

Definition last_count (st : state S) : nat :=
  List.last (current_count st) 0%nat.

(** No remaining vehicle of the pool adds coverage. *)
Definition exhausted (st : state S) : Prop :=
  forall w, w ∈ py.iter (total_vehicles st) ->
            (union_count st w <= last_count st)%nat.

(** The recorded counts are strictly increasing, and as many as the
    selected vehicles. *)
Definition recorded (st : state S) : Prop :=
  current_count st <> [] /\ Sorted lt (current_count st) /\
  length (current_count st) = length (current_vehicles st).

Definition best_candidate (st : state S) : candidate :=
  fold_left (consider (df_train st) (current_coverage st))
            (py.iter (total_vehicles st))
            (-1, [], last_count st).

(** One iteration [i] of the outer loop whose guard [i <=
    total_vehicles_counts] holds: the next state, or [None] on [break]. *)
Definition iteration (st : state S) (i : Z) : option (state S) :=
  let '(candidate_vehicle, candidate_coverage, candidate_count) :=
    best_candidate st in
  if -1 <? candidate_vehicle then
    Some {| current_vehicles := current_vehicles st ++ [candidate_vehicle];
            current_coverage := candidate_coverage;
            current_count := current_count st ++ [candidate_count];
            iteration_count := iteration_count st ++ [i];
            df_train := rows_not_of candidate_vehicle (df_train st);
            total_vehicles := py.isub (total_vehicles st) candidate_vehicle |}
  else None.

(** [for i in range(1, vehicle_count)], from the iterations left. *)
Fixpoint loop (total_vehicles_counts : nat) (remaining : list Z) (st : state S)
  : state S :=
  match remaining with
  | [] => st
  | i :: rest =>
      if i <=? Z.of_nat total_vehicles_counts then
        match iteration st i with
        | Some st' => loop total_vehicles_counts rest st'
        | None => st
        end
      else loop total_vehicles_counts rest st
  end.

(** The index order of [value_counts()] of a column, which the code
    leaves to pandas. *)
Variable value_counts_order : list Z -> list Z.

(** [dict(df_train['vehicle_id'].value_counts())], as its items. *)
Definition stats (df_train : dataframe) : list (Z * nat) :=
  let column := map vehicle_id df_train in
  map (fun v => (v, py.count_occurrences v column)) (value_counts_order column).

(** The state at the entry of the [for i] loop, after the first pick. *)
Definition first_pick (df_train : dataframe) : result (nat * state S) :=
  let total_vehicles : S := py.set_of (py.unique (map vehicle_id df_train)) in
  let total_vehicles_counts := py.len total_vehicles in
  item ← py.max snd (stats df_train);
  let first_vehicle := fst item in
  let df_sel := rows_of first_vehicle df_train in
  let current_coverage := map spatiotemporal_segment df_sel in
  Ok (total_vehicles_counts,
      {| current_vehicles := [first_vehicle];
         current_coverage := current_coverage;
         current_count := [length current_coverage];
         iteration_count := [0];
         df_train := rows_not_of first_vehicle df_train;
         total_vehicles := py.isub total_vehicles first_vehicle |}).

Definition max_coverage_greedy_logic (df_train : dataframe) (vehicle_count : Z)
  : result (list Z * list string * list nat * list Z) :=
  '(total_vehicles_counts, st) ← first_pick df_train;
  let st := loop total_vehicles_counts (py.range 1 vehicle_count) st in
  Ok (current_vehicles st, current_coverage st, current_count st,
      iteration_count st).

(** [train]: the projection of [df_train] on three of its columns keeps
    every row, its vehicle and its segment. *)
Definition train (self : VehicleSelector.t) : result (list Z) :=
  '(selected_vehicles, _, _, _) ←
    max_coverage_greedy_logic (VehicleSelector.df_train self)
                              (VehicleSelector.num_to_select self);
  Ok selected_vehicles.

End Pool.

Arguments first_pick S {_} _ _.
Arguments max_coverage_greedy_logic S {_} _ _ _.
Arguments train S {_} _ _.

End GreedyVehicleSelector.

(** ** DataLoader/DataLoader.py: the temporal bucketing *)

Module DataLoader.

Record t : Type := {
  temporal_granularity : Z;
  mongo_uri : string;
  db_name : string;
  collection_name : string
}.

(** [__init__] stores its arguments. *)
Definition init (temporal_granularity : Z)
    (mongo_uri db_name collection_name : string) : result t :=
  Ok {| temporal_granularity := temporal_granularity;
        mongo_uri := mongo_uri;
        db_name := db_name;
        collection_name := collection_name |}.

(** A document of the collection: its [_id], the fields written by
    [_insert_mobility_data] that the bucketing reads, and [temporal_id]
    once it has been set. *)
Record doc : Type := {
  _id : nat;
  vehicle : Z;
  timestamp : Z;
  temporal : option Z
}.

Abbreviation collection := (list doc).

(** [[(b[i], b[i + 1]) for i in range(len(b) - 1)]]. *)
Definition consecutive (time_boundaries : list Z) : list (Z * Z) :=
  combine time_boundaries (tl time_boundaries).

Definition get_time_segments (self : t) (start_unixtime end_unixtime : Z)
  : result (list (Z * Z)) :=
  let interval_length := temporal_granularity self in
  stepped ← py.arange start_unixtime end_unixtime interval_length;
  let time_boundaries := stepped ++ [end_unixtime] in
  Ok (consecutive time_boundaries).

(** The query [{'timestamp': {'$gte': segment_start, '$lt': segment_end}}]. *)
Definition within (segment : Z * Z) (timestamp : Z) : bool :=
  (fst segment <=? timestamp) && (timestamp <? snd segment).

Definition in_segment (segment : Z * Z) (d : doc) : bool :=
  within segment (timestamp d).

(** [update_many] with [$set temporal_id] on the documents of one
    segment: the collection afterwards, and [modified_count] (the
    matched documents whose [temporal_id] changed). *)
Definition set_temporal_id (segment : Z * Z) (d : doc) : doc :=
  if in_segment segment d
  then {| _id := _id d; vehicle := vehicle d; timestamp := timestamp d;
          temporal := Some (fst segment) |}
  else d.

Definition modified (segment : Z * Z) (d : doc) : bool :=
  in_segment segment d && negb (bool_decide (temporal d = Some (fst segment))).

(** The document [d] after the updates of all of [time_segments]. *)
Definition classify (time_segments : list (Z * Z)) (d : doc) : doc :=
  fold_left (fun d segment => set_temporal_id segment d) time_segments d.

Definition update_segment (acc : collection * Z) (segment : Z * Z)
  : collection * Z :=
  let '(docs, num_updated) := acc in
  (map (set_temporal_id segment) docs,
   num_updated + Z.of_nat (length (filter (fun d => modified segment d = true) docs))).

(** Smallest and largest [timestamp] of a non-empty collection. *)
Definition min_timestamp (d : doc) (docs : collection) : Z :=
  fold_left Z.min (map timestamp docs) (timestamp d).

Definition max_timestamp (d : doc) (docs : collection) : Z :=
  fold_left Z.max (map timestamp docs) (timestamp d).

(** The collection afterwards, [num_updated], and whether the warning
    that nothing was updated is issued. *)
Definition compute_temporal_id_and_update_db (self : t) (docs : collection)
  : result (collection * Z * bool) :=
  match docs with
  | [] => Raise (ValueError collection_not_populated)
  | d :: rest =>
      let min_time := min_timestamp d rest in
      let max_time := max_timestamp d rest in
      time_segments ← get_time_segments self min_time (max_time + 1);
      let '(docs', num_updated) :=
        fold_left update_segment time_segments (docs, 0) in
      Ok (docs', num_updated, num_updated =? 0)
  end.

End DataLoader.

(** ** The tie-break of the specification, and concrete tables *)

Module spec.

(** Following the specification's words (4.4, steps 2 and 4): among the
    agents of [pool], the one with the largest [score], ties broken by
    agent_id ascending. *)
Definition better (score : Z -> nat) (a b : Z) : bool :=
  (score b <? score a)%nat || ((score a =? score b)%nat && (a <? b)).

Definition pick (score : Z -> nat) (pool : list Z) : option Z :=
  match pool with
  | [] => None
  | v :: rest =>
      Some (fold_left (fun best w => if better score w best then w else best)
                      rest v)
  end.

End spec.

(** A row that puts [vehicle] in [segment]. *)
Definition covers (vehicle : Z) (segment : string) : row :=
  {| vehicle_id := vehicle; stratum_id := 0; temporal_id := 0; count := 1;
     spatiotemporal_segment := segment |}.

(** Agents A, B, C with segment sets {s1,s2}, {s2,s3}, {s4}. *)
Definition scenario (A B C : Z) : dataframe :=
  [covers A "s1"; covers A "s2"; covers B "s2"; covers B "s3"; covers C "s4"].

(** Agent 2 covers two segments, agents 8 and 1 one further segment each. *)
Definition tie_table : dataframe :=
  [covers 2 "a"; covers 2 "b"; covers 8 "c"; covers 1 "d"].

(** Agent 2 covers three segments, agent 3 two, agents 8 and 1 one each,
    all different. *)
Definition rebuilt_table : dataframe :=
  [covers 2 "a"; covers 2 "b"; covers 2 "c"; covers 3 "d"; covers 3 "e";
   covers 8 "f"; covers 1 "g"].

(** A document with [timestamp] and no [temporal_id] yet. *)
Definition sample (id : nat) (timestamp : Z) : DataLoader.doc :=
  {| DataLoader._id := id; DataLoader.vehicle := 0;
     DataLoader.timestamp := timestamp; DataLoader.temporal := None |}.

Definition loader (temporal_granularity : Z) : DataLoader.t :=
  {| DataLoader.temporal_granularity := temporal_granularity;
     DataLoader.mongo_uri := "mongodb://localhost:27017/";
     DataLoader.db_name := "modulo";
     DataLoader.collection_name := "mobility_data" |}.

(** The segments that the vehicles of [vehicles] cover in [df]. *)
Definition coverage_of (vehicles : list Z) (df : dataframe) : gset string :=
  list_to_set (map spatiotemporal_segment
                 (filter (fun r => vehicle_id r ∈ vehicles) df)).

(** What the loop of the greedy selection keeps true of its variables,
    [df0] being the train table: the selected vehicles are distinct, the
    table is the initial one without their rows, the coverage is that of
    the selected vehicles, the last recorded count is at least its size,
    and is its size once there is a second pick, and every pick after
    the first is greater than -1 and a vehicle of the table. *)
Definition selection_invariant {S : Type} (df0 : dataframe)
    (st : GreedyVehicleSelector.state S) : Prop :=
  GreedyVehicleSelector.current_vehicles st <> [] /\
  NoDup (GreedyVehicleSelector.current_vehicles st) /\
  GreedyVehicleSelector.df_train st
  = filter (fun r => vehicle_id r ∉ GreedyVehicleSelector.current_vehicles st) df0 /\
  list_to_set (GreedyVehicleSelector.current_coverage st)
  = coverage_of (GreedyVehicleSelector.current_vehicles st) df0 /\
  (size (coverage_of (GreedyVehicleSelector.current_vehicles st) df0)
   <= GreedyVehicleSelector.last_count st)%nat /\
  ((2 <= length (GreedyVehicleSelector.current_vehicles st))%nat ->
   GreedyVehicleSelector.last_count st
   = size (coverage_of (GreedyVehicleSelector.current_vehicles st) df0)) /\
  Forall (fun v => -1 < v /\ v ∈ map vehicle_id df0)
         (tl (GreedyVehicleSelector.current_vehicles st)).

(** How many of the updates of [time_segments], run in order, modify the
    document [d]. *)
Fixpoint modifications (time_segments : list (Z * Z)) (d : DataLoader.doc) : nat :=
  match time_segments with
  | [] => 0
  | segment :: rest =>
      ((if DataLoader.modified segment d then 1 else 0)
       + modifications rest (DataLoader.set_temporal_id segment d))%nat
  end.

(** The start of the time segment of [timestamp], for segments stepping
    from [min_time] by [granularity]. *)
Definition bucket_start (min_time granularity timestamp : Z) : Z :=
  min_time + (timestamp - min_time) / granularity * granularity.

(** The document [x] with the temporal id of its time segment. *)
Definition bucketed (min_time granularity : Z) (x : DataLoader.doc)
  : DataLoader.doc :=
  {| DataLoader._id := DataLoader._id x;
     DataLoader.vehicle := DataLoader.vehicle x;
     DataLoader.timestamp := DataLoader.timestamp x;
     DataLoader.temporal :=
       Some (bucket_start min_time granularity (DataLoader.timestamp x)) |}.

(** ** VehicleSelector/MaxPointsVehicleSelector.py *)

Module MaxPointsVehicleSelector.

(** The sum of the [count] column over the rows of [vehicle]. *)
Definition total_count (vehicle : Z) (df : dataframe) : Z :=
  foldr Z.add 0 (map count (rows_of vehicle df)).

(** [df.groupby(['vehicle_id']).sum()]: one row per vehicle, in ascending
    order of the vehicle ids, with the sum of its counts. *)
Definition groupby_sum (df : dataframe) : list (Z * Z) :=
  map (fun v => (v, total_count v df)) (py.ascending_order (map vehicle_id df)).

(** [df.head(n)], that is [df.iloc[:n]]: the first [n] rows, and for a
    negative [n] all rows but the last [-n]. *)
Definition head {A : Type} (n : Z) (rows : list A) : list A :=
  if 0 <=? n then take (Z.to_nat n) rows
  else take (length rows - Z.to_nat (- n)) rows.

Section Sort.

(** [sort_values(by=['count'], ascending=False)].  The default sort is
    not stable, the order of rows of equal count is left open. *)
Variable sort_values : list (Z * Z) -> list (Z * Z).

Definition train (self : VehicleSelector.t) : list Z :=
  let df_train := groupby_sum (VehicleSelector.df_train self) in
  let df_train := sort_values df_train in
  map fst (head (VehicleSelector.num_to_select self) df_train).

End Sort.

(** What [sort_values] guarantees on [rows]: the same rows, by
    descending count. *)
Definition sorts_descending (sort_values : list (Z * Z) -> list (Z * Z))
    (rows : list (Z * Z)) : Prop :=
  sort_values rows ≡ₚ rows /\
  StronglySorted (fun a b => snd b <= snd a) (sort_values rows).

(** A stable sort by descending count. *)
Definition stable_sort (rows : list (Z * Z)) : list (Z * Z) :=
  py.sort_by (fun a b => snd b <=? snd a) rows.

End MaxPointsVehicleSelector.

(** ** Exceptions of the loader and of the stratification

    The exceptions raised by the rest of [DataLoader] and by the
    stratification classes, with their messages. *)

Module raised.

Inductive t : Type :=
| NameError (message : string)
| TypeError (message : string)
| ValueError (message : string)
| KeyError (key : string)
| OperationFailure.

End raised.

Inductive outcome (A : Type) : Type :=
| Return (a : A)
| Fail (e : raised.t).

Arguments Return {A} a.
Arguments Fail {A} e.

(** ** SpatialStratification/SpatialStratification.py and
    CustomStratification.py

    A GeoJSON feature collection is the list of its features.  A feature
    has a [geometry] member, a geometry object or null, and a
    [properties] member, a dict or null; the code also provides for a
    feature without [properties].  The coordinates of a geometry are
    carried along untouched. *)

Module SpatialStratification.

(** The values of [properties] that the code writes or reads back. *)
Inductive value : Type :=
| Int (z : Z)
| Str (s : string).

#[global] Instance value_eq_dec : EqDecision value.
Proof. solve_decision. Defined.

(** The [properties] member of a feature. *)
Inductive member : Type :=
| absent
| null
| object (props : gmap string value).

Section GeoJSON.

Variable coordinates : Type.

Record geometry : Type := {
  type : string;
  geometry_coordinates : coordinates
}.

(** [feature_geometry] is [None] for a null geometry. *)
Record feature : Type := {
  properties : member;
  feature_geometry : option geometry
}.

(** The argument of [_assign_stratum_id]: a dict with its features, or
    any other object. *)
Inductive argument : Type :=
| geojson (features : list feature)
| not_a_dict.

(** The body of the loop of [_assign_stratum_id] for feature [i]: the
    feature afterwards, or the [TypeError] of the assignment into null
    properties. *)
Definition insert_stratum_id (i : nat) (f : feature) : outcome feature :=
  match properties f with
  | absent =>
      Return {| properties :=
                  object (<["stratum_id"%string := Int (Z.of_nat i)]> ∅);
                feature_geometry := feature_geometry f |}
  | object props =>
      Return {| properties :=
                  object (<["stratum_id"%string := Int (Z.of_nat i)]> props);
                feature_geometry := feature_geometry f |}
  | null =>
      Fail (raised.TypeError
              "'NoneType' object does not support item assignment")
  end.

(** The properties of a feature as a dict, empty when there is none. *)
Definition dict_of (m : member) : gmap string value :=
  match m with
  | object props => props
  | absent | null => ∅
  end.

(** The feature [f] with [i] as its stratum id. *)
Definition numbered (i : nat) (f : feature) : feature :=
  {| properties :=
       object (<["stratum_id"%string := Int (Z.of_nat i)]>
                 (dict_of (properties f)));
     feature_geometry := feature_geometry f |}.

(** The loop from feature [i] on.  It writes into the features of the
    GeoJSON that it was given: the features afterwards, also when an
    exception ends the loop, and the exception if any. *)
Fixpoint assign_from (i : nat) (features : list feature)
  : list feature * option raised.t :=
  match features with
  | [] => ([], None)
  | f :: rest =>
      match insert_stratum_id i f with
      | Fail e => (f :: rest, Some e)
      | Return f' =>
          let '(rest', e) := assign_from (S i) rest in (f' :: rest', e)
      end
  end.

(** [_assign_stratum_id]: the argument afterwards, and the GeoJSON
    returned, which is the argument itself. *)
Definition assign_stratum_id (input_geojson : argument)
  : argument * outcome (list feature) :=
  match input_geojson with
  | not_a_dict =>
      (not_a_dict,
       Fail (raised.TypeError "input_geojson must be a valid GeoJSON dict."))
  | geojson features =>
      let '(features', e) := assign_from 0 features in
      (geojson features',
       match e with
       | None => Return features'
       | Some e => Fail e
       end)
  end.

End GeoJSON.

Arguments type {coordinates} _.
Arguments geometry_coordinates {coordinates} _.
Arguments properties {coordinates} _.
Arguments feature_geometry {coordinates} _.
Arguments geojson {coordinates} _.
Arguments not_a_dict {coordinates}.
Arguments insert_stratum_id {coordinates} _ _.
Arguments numbered {coordinates} _ _.
Arguments assign_from {coordinates} _ _.
Arguments assign_stratum_id {coordinates} _.

End SpatialStratification.

Module CustomStratification.

Import SpatialStratification.

Section GeoJSON.

Variable coordinates : Type.

(** The stratification object: its [input_geojson]. *)
Record t : Type := { input_geojson : list (feature coordinates) }.

(** [_check_inputs]: the pair that it returns, or the [TypeError] of
    reading the type of a null geometry. *)
Fixpoint check_inputs (features : list (feature coordinates))
  : outcome (bool * string) :=
  match features with
  | [] => Return (true, ""%string)
  | f :: rest =>
      match feature_geometry f with
      | None => Fail (raised.TypeError "'NoneType' object is not subscriptable")
      | Some g =>
          if negb (String.eqb (type g) "Polygon")
          then Return
                 (false,
                  "Custom GeoJSON must contain only Polygon types. No other GeoJSON type is supported."%string)
          else check_inputs rest
      end
  end.

Definition init (features : list (feature coordinates)) : outcome t :=
  match check_inputs features with
  | Fail e => Fail e
  | Return (is_correct, msg) =>
      if is_correct then Return {| input_geojson := features |}
      else Fail (raised.ValueError msg)
  end.

(** [stratify]: the object afterwards, and the exception if any.  The
    GeoJSON of the object is written into in place, so that it is changed
    also when the numbering fails. *)
Definition stratify (self : t) : t * option raised.t :=
  let '(features, e) := assign_from 0 (input_geojson self) in
  ({| input_geojson := features |}, e).

End GeoJSON.

Arguments input_geojson {coordinates} _.
Arguments check_inputs {coordinates} _.
Arguments init {coordinates} _.
Arguments stratify {coordinates} _.

End CustomStratification.

(** ** SpatialStratification/GridStratification.py: the checks

    The numbers given are taken as rationals, which compare as Python
    integers and finite floats do. *)

Module GridStratification.

Record t : Type := {
  cell_side : Q;
  min_lng : Q;
  min_lat : Q;
  max_lng : Q;
  max_lat : Q
}.

Definition check_inputs
    (cellSideLength min_longitude min_latitude max_longitude max_latitude : Q)
  : bool * string :=
  if Qle_bool cellSideLength 0
  then (false, "Cell side length has to be greater than 0."%string)
  else if Qle_bool max_latitude min_latitude
  then (false, "Minimum latitude has to be smaller than maximum latitude"%string)
  else if Qle_bool max_longitude min_longitude
  then (false, "Minimum longitude has to be smaller than maximum longitude"%string)
  else if negb (Qle_bool (-90) min_latitude && Qle_bool min_latitude 90)
  then (false, "Minimum latitude has to be within the range [-90, 90]"%string)
  else if negb (Qle_bool (-90) max_latitude && Qle_bool max_latitude 90)
  then (false, "Maximum latitude has to be within the range [-90, 90]"%string)
  else if negb (Qle_bool (-180) min_longitude && Qle_bool min_longitude 180)
  then (false, "Minimum longitude has to be within the range [-180, 180]"%string)
  else if negb (Qle_bool (-180) max_longitude && Qle_bool max_longitude 180)
  then (false, "Maximum longitude has to be within the range [-180, 180]"%string)
  else (true, ""%string).

Definition init
    (cellSideLength min_longitude min_latitude max_longitude max_latitude : Q)
  : outcome t :=
  let '(is_correct, msg) :=
    check_inputs cellSideLength min_longitude min_latitude max_longitude
                 max_latitude in
  if is_correct
  then Return {| cell_side := cellSideLength; min_lng := min_longitude;
                 min_lat := min_latitude; max_lng := max_longitude;
                 max_lat := max_latitude |}
  else Fail (raised.ValueError msg).

End GridStratification.

(** ** DataLoader.compute_stratum_id_and_update_db *)

Module strata.

Import SpatialStratification.

Section Geo.

(** The coordinates of a stratum and the location of a data point, and
    the geospatial query of the database, [$geoWithin]. *)
Variables coordinates location : Type.
Variable geo_within : geometry coordinates -> location -> bool.

(** The fields of a document that the computation reads or writes. *)
Record doc : Type := {
  _id : nat;
  doc_location : location;
  stratum_id : option value
}.

(** [update_one] with [$set stratum_id] on a document found in the
    stratum, and whether it modified the document. *)
Definition set_stratum_id (g : geometry coordinates) (id : value) (d : doc)
  : doc :=
  if geo_within g (doc_location d)
  then {| _id := _id d; doc_location := doc_location d; stratum_id := Some id |}
  else d.

Definition modified (g : geometry coordinates) (id : value) (d : doc)
  : bool :=
  geo_within g (doc_location d)
  && negb (bool_decide (stratum_id d = Some id)).

(** [stratum['properties']['stratum_id']]. *)
Definition stratum_id_of (stratum : feature coordinates) : outcome value :=
  match properties stratum with
  | absent => Fail (raised.KeyError "properties")
  | null => Fail (raised.TypeError "'NoneType' object is not subscriptable")
  | object props =>
      match props !! "stratum_id"%string with
      | None => Fail (raised.KeyError "stratum_id")
      | Some id => Return id
      end
  end.

(** The loop over the strata, from the collection [docs] and the count
    [num_updated]: the collection afterwards, and the count or the
    exception.  The database refuses a query whose [$geometry] is null;
    the driver raises [OperationFailure] when the cursor is iterated. *)
Fixpoint update_strata (features : list (feature coordinates)) (docs : list doc)
    (num_updated : Z) : list doc * outcome Z :=
  match features with
  | [] => (docs, Return num_updated)
  | stratum :: rest =>
      match stratum_id_of stratum with
      | Fail e => (docs, Fail e)
      | Return id =>
          match feature_geometry stratum with
          | None => (docs, Fail raised.OperationFailure)
          | Some g =>
              update_strata rest (map (set_stratum_id g id) docs)
                (num_updated
                 + Z.of_nat (length (filter (fun d => modified g id d = true)
                                            docs)))
          end
      end
  end.

(** The collection afterwards and, unless an exception is raised,
    [num_updated] and whether the warning is issued. *)
Definition compute_stratum_id_and_update_db (self : DataLoader.t)
    (features : list (feature coordinates)) (docs : list doc)
  : list doc * outcome (Z * bool) :=
  match docs with
  | [] =>
      (docs,
       Fail (raised.ValueError
               ("The collection " +:+ DataLoader.collection_name self +:+
                " has not already been populated by the vehicle mobility data. The data needs to be inserted into the database to be able to calculate stratum_id for each datum.")))
  | _ :: _ =>
      match update_strata features docs 0 with
      | (docs', Return num_updated) =>
          (docs', Return (num_updated, num_updated =? 0))
      | (docs', Fail e) => (docs', Fail e)
      end
  end.

(** Whether [point] lies within the geometry of [stratum]; no point lies
    within a null geometry. *)
Definition contains (stratum : feature coordinates) (point : location) : bool :=
  match feature_geometry stratum with
  | Some g => geo_within g point
  | None => false
  end.

(** The position, counted from [i], of the last of [features] that
    contains [point]. *)
Fixpoint last_containing (i : nat) (features : list (feature coordinates))
    (point : location) : option nat :=
  match features with
  | [] => None
  | stratum :: rest =>
      match last_containing (S i) rest point with
      | Some j => Some j
      | None => if contains stratum point then Some i else None
      end
  end.

End Geo.

Arguments stratum_id_of {coordinates} _.
Arguments _id {location} _.
Arguments doc_location {location} _.
Arguments stratum_id {location} _.

End strata.

(** ** DataLoader.fetch_data_for_vehicle_selection *)

Module fetch.

(** The fields of a document that the query reads; [stratum_id] and
    [temporal_id] exist once they have been computed. *)
Record doc : Type := {
  vehicle : Z;
  stratum : option Z;
  temporal : option Z
}.

(** A group of [groupby(['vehicle_id', 'stratum_id', 'temporal_id'])]. *)
Abbreviation key := (Z * Z * Z)%type.

(** The document under [query_filter] and [query_projection]. *)
Definition projected (d : doc) : option key :=
  match stratum d, temporal d with
  | Some s, Some t => Some (vehicle d, s, t)
  | _, _ => None
  end.

Definition fetch_data (docs : list doc) : list key :=
  omap projected docs.

(** The order of the group keys. *)
Definition key_leb (a b : key) : bool :=
  let '(v, s, t) := a in
  let '(v', s', t') := b in
  (v <? v') || ((v =? v') && ((s <? s') || ((s =? s') && (t <=? t')))).

Definition occurrences (k : key) (keys : list key) : nat :=
  length (filter (fun k' => k' = k) keys).

(** [groupby(...).size()]: the groups in key order, with their sizes. *)
Definition group_sizes (keys : list key) : list (key * nat) :=
  map (fun k => (k, occurrences k keys)) (py.sort_by key_leb (py.unique keys)).

(** [str(stratum_id) + "_" + str(temporal_id)]. *)
Definition segment_name (stratum_id temporal_id : Z) : string :=
  pretty stratum_id +:+ "_" +:+ pretty temporal_id.

Definition to_row (group : key * nat) : row :=
  let '(v, s, t, size) := group in
  {| vehicle_id := v; stratum_id := s; temporal_id := t;
     count := Z.of_nat size; spatiotemporal_segment := segment_name s t |}.

Definition fetch_data_for_vehicle_selection (docs : list doc)
  : outcome dataframe :=
  let df := fetch_data docs in
  if Nat.eqb (length df) 0
  then Fail (raised.ValueError
               "The resultant dataframe does not have any data.")
  else Return (map to_row (group_sizes df)).

End fetch.

(** The characters of a string. *)
Fixpoint characters (s : string) : list Ascii.ascii :=
  match s with
  | EmptyString => []
  | String c rest => c :: characters rest
  end.

(** The group of a row of the incidence table. *)
Definition row_key (r : row) : fetch.key :=
  (vehicle_id r, stratum_id r, temporal_id r).

(** Documents of four data points: two of vehicle 3 in stratum 1 during
    the time segment 100, one of vehicle 1, and one without stratum. *)
Definition tagged_documents : list fetch.doc :=
  [ {| fetch.vehicle := 3; fetch.stratum := Some 1; fetch.temporal := Some 100 |};
    {| fetch.vehicle := 3; fetch.stratum := Some 1; fetch.temporal := Some 100 |};
    {| fetch.vehicle := 1; fetch.stratum := Some (-2); fetch.temporal := Some 200 |};
    {| fetch.vehicle := 3; fetch.stratum := None; fetch.temporal := Some 100 |} ].

Definition tagged_table : dataframe :=
  [ {| vehicle_id := 1; stratum_id := -2; temporal_id := 200; count := 1;
       spatiotemporal_segment := "-2_200" |};
    {| vehicle_id := 3; stratum_id := 1; temporal_id := 100; count := 2;
       spatiotemporal_segment := "1_100" |} ].

(** Every recorded count is the number of segments of [df0] that the
    vehicles selected up to that step cover. *)
Definition counts_are_coverage (df0 : dataframe)
    (selected : list Z) (counts : list nat) : Prop :=
  forall j c, counts !! j = Some c ->
              c = size (coverage_of (take (S j) selected) df0).

(** A selector on [df_train], asked for [num_to_select] vehicles. *)
Definition selector_on (df_train : dataframe) (num_to_select : Z)
  : VehicleSelector.t :=
  {| VehicleSelector.num_to_select := num_to_select;
     VehicleSelector.train_test_split_timestamp := 0;
     VehicleSelector.df := df_train;
     VehicleSelector.df_train := df_train;
     VehicleSelector.df_test := [];
     VehicleSelector.coverage_metric_function := metrics.percentage_coverage |}.

(** Strata and locations on a line: a stratum from [lo] to [hi] contains
    the locations between them. *)
Definition polygon (lo hi : Z) : SpatialStratification.feature (Z * Z) :=
  {| SpatialStratification.properties := SpatialStratification.absent;
     SpatialStratification.feature_geometry :=
       Some {| SpatialStratification.type := "Polygon";
               SpatialStratification.geometry_coordinates := (lo, hi) |} |}.

Definition between (g : SpatialStratification.geometry (Z * Z)) (p : Z) : bool :=
  (fst (SpatialStratification.geometry_coordinates g) <=? p)
  && (p <=? snd (SpatialStratification.geometry_coordinates g)).

Definition located (id : nat) (p : Z) : strata.doc Z :=
  {| strata._id := id; strata.doc_location := p; strata.stratum_id := None |}.

(** ** DataLoader._anonymize_data

    The mobility dataframe that [_prep_data] returns, one row per data
    point.  The column [vehicle_id] holds integers before the
    anonymization; after it it holds what [Series.map] found in the
    mapping, or nothing (NaN) for a value that is no key. *)

Module mobility.

Record datum (V : Type) : Type := {
  vehicle_id : V;
  latitude : Q;
  longitude : Q;
  timestamp : Z
}.

Arguments vehicle_id {V} _.
Arguments latitude {V} _.
Arguments longitude {V} _.
Arguments timestamp {V} _.

(** [dict(items)]: the items are inserted in order, a later item
    replacing an earlier one with the same key. *)
Definition dict (items : list (Z * Z)) : gmap Z Z :=
  foldl (fun mapping item => <[item.1 := item.2]> mapping) ∅ items.

Section Shuffle.

(** [random.shuffle], by the list that it leaves. *)
Variable shuffle : list Z -> list Z.

Definition anonymize_data (df : list (datum Z))
  : list (datum (option Z)) * gmap Z Z :=
  let vehicle_ids := py.unique (map vehicle_id df) in
  let anonymized_vehicle_ids :=
    shuffle (py.range 0 (Z.of_nat (length vehicle_ids))) in
  let vehicle_id_mapping := dict (zip vehicle_ids anonymized_vehicle_ids) in
  (map (fun r => {| vehicle_id := vehicle_id_mapping !! vehicle_id r;
                    latitude := latitude r;
                    longitude := longitude r;
                    timestamp := timestamp r |}) df,
   vehicle_id_mapping).

End Shuffle.

End mobility.

(** Data points of the vehicles 40, 7 and 40 again. *)
Definition trace : list (mobility.datum Z) :=
  [ {| mobility.vehicle_id := 40; mobility.latitude := 28; mobility.longitude := 77;
       mobility.timestamp := 0 |};
    {| mobility.vehicle_id := 7; mobility.latitude := 28; mobility.longitude := 77;
       mobility.timestamp := 5 |};
    {| mobility.vehicle_id := 40; mobility.latitude := 29; mobility.longitude := 77;
       mobility.timestamp := 9 |} ].

(** * Properties *)

(** ** Lists *)

Lemma insert_sorted_Permutation {A : Type} (leb : A -> A -> bool) (x : A)
    (l : list A) :
  py.insert_sorted leb x l ≡ₚ x :: l.
Proof.
  induction l as [|y l IH]; [reflexivity|]. simpl.
  destruct (leb x y); [reflexivity|]. rewrite IH. apply Permutation_swap.
Qed.

Lemma sort_by_Permutation {A : Type} (leb : A -> A -> bool) (l : list A) :
  py.sort_by leb l ≡ₚ l.
Proof.
  unfold py.sort_by. induction l as [|x l IH]; [reflexivity|]. simpl.
  now rewrite insert_sorted_Permutation, IH.
Qed.

Lemma filter_all {A : Type} (P : A -> Prop) `{!forall x, Decision (P x)}
    (l : list A) :
  Forall P l -> filter P l = l.
Proof.
  induction 1 as [|x t Hx _ IH]; [reflexivity|].
  rewrite filter_cons_True by assumption. now rewrite IH.
Qed.

Lemma filter_none {A : Type} (P : A -> Prop) `{!forall x, Decision (P x)}
    (l : list A) :
  Forall (fun x => ~ P x) l -> filter P l = [].
Proof.
  induction 1 as [|x t Hx _ IH]; [reflexivity|].
  now rewrite filter_cons_False.
Qed.

Lemma unique_elem_of {A : Type} `{EqDecision A} (l : list A) (x : A) :
  x ∈ py.unique l <-> x ∈ l.
Proof.
  induction l as [|y t IH]; simpl; [reflexivity|].
  rewrite !elem_of_cons, list_elem_of_filter, IH.
  destruct (decide (x = y)); intuition.
Qed.

Lemma unique_NoDup {A : Type} `{EqDecision A} (l : list A) :
  NoDup (py.unique l).
Proof.
  induction l as [|y t IH]; simpl; constructor.
  - rewrite list_elem_of_filter. intuition.
  - now apply NoDup_filter.
Qed.

Lemma unique_nil_inv {A : Type} `{EqDecision A} (l : list A) :
  py.unique l = [] -> l = [].
Proof. destruct l; [reflexivity | discriminate]. Qed.

(** ** metrics.percentage_coverage *)

Section PercentageCoverage.

Implicit Types (df : dataframe) (selected : list Z).

Lemma selected_rows_all df selected :
  (forall r, r ∈ df -> vehicle_id r ∈ selected) ->
  filter (fun r => py.isin (vehicle_id r) selected = true) df = df.
Proof.
  intros Hall. apply filter_all, Forall_forall. intros r Hr.
  unfold py.isin. apply bool_decide_eq_true. auto.
Qed.

Lemma selected_rows_none df :
  filter (fun r => py.isin (vehicle_id r) [] = true) df = [].
Proof.
  apply filter_none, Forall_forall. intros r _.
  unfold py.isin. rewrite bool_decide_eq_true. apply not_elem_of_nil.
Qed.

Lemma segments_nonempty df :
  df <> [] -> length (py.unique (map spatiotemporal_segment df)) <> 0%nat.
Proof. destruct df; [congruence | discriminate]. Qed.

Lemma whole_is_100 (n : nat) :
  n <> 0%nat ->
  (inject_Z (Z.of_nat n) / inject_Z (Z.of_nat n) * 100 == 100)%Q.
Proof.
  intros Hn. unfold Qdiv. rewrite Qmult_inv_r; [ring|].
  intros H. apply Hn. unfold Qeq in H. simpl in H. lia.
Qed.

Lemma nothing_is_0 (n : nat) :
  (inject_Z (Z.of_nat 0) / inject_Z (Z.of_nat n) * 100 == 0)%Q.
Proof. unfold Qdiv. simpl. ring. Qed.

(** C5. On a non-empty test table, [percentage_coverage] of a selection
    that contains every agent of the table is 100, and of the empty
    selection it is 0. *)
Theorem percentage_coverage_boundaries df selected :
  df <> [] ->
  (forall r, r ∈ df -> vehicle_id r ∈ selected) ->
  (exists q, metrics.percentage_coverage selected df = Ok q /\ (q == 100)%Q) /\
  (exists q, metrics.percentage_coverage [] df = Ok q /\ (q == 0)%Q).
Proof.
  intros Hne Hall. pose proof (segments_nonempty df Hne) as Hlen.
  apply Nat.eqb_neq in Hlen. unfold metrics.percentage_coverage.
  rewrite Hlen, selected_rows_all, selected_rows_none by assumption.
  split; eexists; (split; [reflexivity|]).
  - apply whole_is_100. now apply Nat.eqb_neq.
  - apply nothing_is_0.
Qed.

Lemma percentage_coverage_boundaries_witness :
  (exists q, metrics.percentage_coverage [2; 8; 1] tie_table = Ok q /\ (q == 100)%Q) /\
  (exists q, metrics.percentage_coverage [] tie_table = Ok q /\ (q == 0)%Q).
Proof.
  apply percentage_coverage_boundaries.
  - discriminate.
  - intros r Hr. unfold tie_table in Hr.
    repeat (apply elem_of_cons in Hr as [->|Hr]; [simpl; set_solver|]).
    now apply elem_of_nil in Hr.
Defined.

(** C6. On the test table without segments, the empty table and no
    other, [percentage_coverage] fails for every selection: the division
    by the number of segments raises [ZeroDivisionError], and no number
    is returned. *)
Theorem percentage_coverage_of_empty_table selected df :
  metrics.percentage_coverage selected df = Raise ZeroDivisionError <-> df = [].
Proof.
  unfold metrics.percentage_coverage. split.
  - destruct (Nat.eqb _ 0) eqn:Hlen; [|discriminate]. intros _.
    apply Nat.eqb_eq, length_zero_iff_nil, unique_nil_inv in Hlen.
    now apply map_eq_nil in Hlen.
  - now intros ->.
Qed.

End PercentageCoverage.

(** Against C6: on the empty test table the metric gives no result,
    neither 0 nor NaN: it raises [ZeroDivisionError], and [test] passes
    the exception on to its caller. *)
Lemma empty_table_gives_no_number :
  metrics.percentage_coverage [2; 8] [] = Raise ZeroDivisionError /\
  (forall q, metrics.percentage_coverage [2; 8] [] <> Ok q) /\
  exists self,
    VehicleSelector.init metrics.METRICS_LIST 2 tie_table 0
      (VehicleSelector.metric_name "percentage_coverage") = Ok self /\
    VehicleSelector.df_test self = [] /\
    VehicleSelector.test self [2; 8] = Raise ZeroDivisionError.
Proof.
  split; [reflexivity|]. split; [discriminate|].
  eexists. split; [reflexivity|]. split; reflexivity.
Qed.

(** ** VehicleSelector: construction *)

Section Construction.

Variable registry : gmap string metrics.metric_function.

Implicit Types (df : dataframe) (k split : Z)
  (metric : VehicleSelector.coverage_metric).

Lemma init_too_many k df split metric :
  distinct_agents df < k ->
  VehicleSelector.init registry k df split metric
  = Raise (ValueError cannot_select_more).
Proof.
  intros Hk. unfold VehicleSelector.init.
  apply Z.ltb_lt in Hk. now rewrite Hk.
Qed.

Lemma init_enough k df split metric :
  k <= distinct_agents df ->
  VehicleSelector.init registry k df split metric
  = f ← VehicleSelector.decide_metric_function registry metric;
    Ok {| VehicleSelector.num_to_select := k;
          VehicleSelector.train_test_split_timestamp := split;
          VehicleSelector.df := df;
          VehicleSelector.df_train :=
            fst (VehicleSelector.train_test_splitter df split);
          VehicleSelector.df_test :=
            snd (VehicleSelector.train_test_splitter df split);
          VehicleSelector.coverage_metric_function := f |}.
Proof.
  intros Hk. unfold VehicleSelector.init.
  apply Z.ltb_ge in Hk. now rewrite Hk.
Qed.

(** C7. Constructing a selector with [k] greater than the number of
    distinct agents of the dataframe fails with the [ValueError] of the
    cardinality check; with [k] at most that number this error is not
    raised, and the construction succeeds whenever the metric resolves. *)
Theorem init_cardinality k df split metric :
  (distinct_agents df < k ->
   VehicleSelector.init registry k df split metric
   = Raise (ValueError cannot_select_more)) /\
  (k <= distinct_agents df ->
   VehicleSelector.init registry k df split metric
   <> Raise (ValueError cannot_select_more) /\
   (forall f, VehicleSelector.decide_metric_function registry metric = Ok f ->
      exists self, VehicleSelector.init registry k df split metric = Ok self /\
                   VehicleSelector.num_to_select self = k)).
Proof.
  split; [apply init_too_many|].
  intros Hk. rewrite init_enough by assumption. split.
  - destruct metric as [identifier|f]; simpl; [|discriminate].
    destruct (registry !! identifier); simpl; discriminate.
  - intros f ->. simpl. eexists. split; reflexivity.
Qed.

(** C8. A string identifier resolves to the function registered under it,
    and fails with the [ValueError] for unsupported metrics when the
    registry has no such key; anything that is not a string is used as
    the metric function itself.  The function so resolved is the one the
    selector keeps and calls in [test]. *)
Theorem metric_resolution :
  (forall identifier f, registry !! identifier = Some f ->
     VehicleSelector.decide_metric_function registry
       (VehicleSelector.metric_name identifier) = Ok f) /\
  (forall identifier, registry !! identifier = None ->
     VehicleSelector.decide_metric_function registry
       (VehicleSelector.metric_name identifier)
     = Raise (ValueError (metric_not_supported identifier))) /\
  (forall f,
     VehicleSelector.decide_metric_function registry
       (VehicleSelector.metric_callable f) = Ok f) /\
  (forall k df split metric self,
     VehicleSelector.init registry k df split metric = Ok self ->
     VehicleSelector.decide_metric_function registry metric
     = Ok (VehicleSelector.coverage_metric_function self) /\
     forall selected,
       VehicleSelector.test self selected
       = coverage ← VehicleSelector.coverage_metric_function self selected
                      (VehicleSelector.df_test self);
         Ok (selected, coverage)).
Proof.
  repeat split.
  - intros identifier f H. simpl. now rewrite H.
  - intros identifier H. simpl. now rewrite H.
  - unfold VehicleSelector.init in H.
    destruct (_ <? k); [discriminate|]. simpl in H.
    destruct (VehicleSelector.decide_metric_function registry metric) as [f|e];
      simpl in H; [|discriminate].
    now injection H as <-.
Qed.

(** C10. The split made at construction is a partition of the dataframe:
    a row is in the train part when its temporal_id is at most the split
    timestamp (so also when it equals it) and in the test part otherwise;
    the parts are disjoint and together they are the rows of the
    dataframe. *)
Theorem train_test_partition df split :
  let train := fst (VehicleSelector.train_test_splitter df split) in
  let test := snd (VehicleSelector.train_test_splitter df split) in
  (forall r, r ∈ train <-> r ∈ df /\ temporal_id r <= split) /\
  (forall r, r ∈ test <-> r ∈ df /\ split < temporal_id r) /\
  (forall r, ~ (r ∈ train /\ r ∈ test)) /\
  (forall r, r ∈ df <-> r ∈ train \/ r ∈ test) /\
  train ++ test ≡ₚ df /\
  (forall k metric self,
     VehicleSelector.init registry k df split metric = Ok self ->
     VehicleSelector.df_train self = train /\
     VehicleSelector.df_test self = test).
Proof.
  unfold VehicleSelector.train_test_splitter. cbn [fst snd].
  assert (Htrain : forall r,
    r ∈ filter (fun r => temporal_id r <= split) df
    <-> r ∈ df /\ temporal_id r <= split)
    by (intros r; rewrite list_elem_of_filter; tauto).
  assert (Htest : forall r,
    r ∈ filter (fun r => temporal_id r > split) df
    <-> r ∈ df /\ split < temporal_id r)
    by (intros r; rewrite list_elem_of_filter; intuition lia).
  assert (Hinit : forall k metric self,
    VehicleSelector.init registry k df split metric = Ok self ->
    VehicleSelector.df_train self = filter (fun r => temporal_id r <= split) df /\
    VehicleSelector.df_test self = filter (fun r => temporal_id r > split) df).
  { intros k metric self H. unfold VehicleSelector.init in H.
    destruct (_ <? k); [discriminate|]. simpl in H.
    destruct (VehicleSelector.decide_metric_function registry metric) as [f|e];
      simpl in H; [|discriminate].
    injection H as <-. split; reflexivity. }
  split; [exact Htrain|]. split; [exact Htest|].
  split; [|split; [|split; [|exact Hinit]]].
  - intros r [H1 H2]. apply Htrain in H1. apply Htest in H2. lia.
  - intros r. rewrite Htrain, Htest.
    destruct (Z_le_gt_dec (temporal_id r) split); intuition lia.
  - clear. induction df as [|r t IH]; [reflexivity|].
    rewrite !filter_cons.
    destruct (decide (temporal_id r <= split)), (decide (temporal_id r > split));
      try lia; simpl.
    + now rewrite IH.
    + rewrite <- Permutation_middle. now rewrite IH.
Qed.

End Construction.

Lemma init_cardinality_witness :
  VehicleSelector.init metrics.METRICS_LIST 4 tie_table 0
    (VehicleSelector.metric_name "percentage_coverage")
  = Raise (ValueError cannot_select_more) /\
  exists self,
    VehicleSelector.init metrics.METRICS_LIST 3 tie_table 0
      (VehicleSelector.metric_name "percentage_coverage") = Ok self /\
    VehicleSelector.num_to_select self = 3.
Proof.
  split.
  - apply (init_cardinality metrics.METRICS_LIST 4 tie_table 0). reflexivity.
  - apply (init_cardinality metrics.METRICS_LIST 3 tie_table 0
             (VehicleSelector.metric_name "percentage_coverage"))
      with (f := metrics.percentage_coverage).
    + discriminate.
    + reflexivity.
Defined.

Lemma metric_resolution_witness :
  VehicleSelector.decide_metric_function metrics.METRICS_LIST
    (VehicleSelector.metric_name "percentage_coverage")
  = Ok metrics.percentage_coverage /\
  VehicleSelector.decide_metric_function metrics.METRICS_LIST
    (VehicleSelector.metric_name "area_coverage")
  = Raise (ValueError (metric_not_supported "area_coverage")).
Proof.
  destruct (metric_resolution metrics.METRICS_LIST) as (Hsome & Hnone & _).
  split; [apply Hsome | apply Hnone]; reflexivity.
Defined.

(** ** DataLoader: temporal buckets *)

Section TemporalBuckets.

Implicit Types (g start stop ts : Z) (n : nat) (segment : Z * Z)
  (segments : list (Z * Z)) (d : DataLoader.doc) (docs : list DataLoader.doc).

Lemma arange_length_bounds start stop g :
  0 < g -> start < stop ->
  exists n, py.arange_length start stop g = S n /\
            start + Z.of_nat n * g < stop <= start + (Z.of_nat n + 1) * g.
Proof.
  intros Hg Hlt. unfold py.arange_length.
  pose proof (Z.div_mod (start - stop) g ltac:(lia)) as Hdiv.
  pose proof (Z.mod_pos_bound (start - stop) g Hg) as Hmod.
  set (q := (start - stop) / g) in *.
  assert (Hq : q <= -1) by nia.
  exists (Z.to_nat (- q - 1)). split.
  - rewrite <- Z2Nat.inj_succ by lia. f_equal. lia.
  - rewrite Z2Nat.id by lia. nia.
Qed.

Lemma segments_start_after g stop n : forall start segment,
  0 < g ->
  segment ∈ DataLoader.consecutive (py.arange_from start g n ++ [stop]) ->
  start <= fst segment.
Proof.
  induction n as [|n IH]; intros start segment Hg Hin.
  - unfold DataLoader.consecutive in Hin. simpl in Hin.
    now apply elem_of_nil in Hin.
  - destruct n as [|n].
    + unfold DataLoader.consecutive in Hin. simpl in Hin.
      apply list_elem_of_singleton in Hin as ->. simpl. lia.
    + change (DataLoader.consecutive (py.arange_from start g (S (S n)) ++ [stop]))
        with ((start, start + g)
              :: DataLoader.consecutive (py.arange_from (start + g) g (S n) ++ [stop])) in Hin.
      apply elem_of_cons in Hin as [->|Hin]; [simpl; lia|].
      apply IH in Hin; lia.
Qed.

Lemma segments_exactly_one g stop n : forall start ts,
  0 < g ->
  start + Z.of_nat n * g < stop <= start + (Z.of_nat n + 1) * g ->
  start <= ts < stop ->
  exists stop',
    filter (fun segment => DataLoader.within segment ts = true)
           (DataLoader.consecutive (py.arange_from start g (S n) ++ [stop]))
    = [(start + (ts - start) / g * g, stop')].
Proof.
  induction n as [|n IH]; intros start ts Hg Hn Hts.
  - exists stop. unfold DataLoader.consecutive. simpl.
    rewrite filter_cons_True, filter_nil.
    + replace ((ts - start) / g) with 0; [do 2 f_equal; lia|].
      symmetry. apply Z.div_small. lia.
    + unfold DataLoader.within. simpl. apply andb_true_iff.
      split; [apply Z.leb_le | apply Z.ltb_lt]; lia.
  - change (DataLoader.consecutive (py.arange_from start g (S (S n)) ++ [stop]))
      with ((start, start + g)
            :: DataLoader.consecutive (py.arange_from (start + g) g (S n) ++ [stop])).
    destruct (Z_lt_ge_dec ts (start + g)) as [Hlt|Hge].
    + exists (start + g). rewrite filter_cons_True.
      * rewrite filter_none.
        { replace ((ts - start) / g) with 0; [do 2 f_equal; lia|].
          symmetry. apply Z.div_small. lia. }
        apply Forall_forall. intros segment Hin.
        apply segments_start_after in Hin; [|assumption].
        unfold DataLoader.within. intros [H _]%andb_true_iff.
        apply Z.leb_le in H. lia.
      * unfold DataLoader.within. simpl. apply andb_true_iff.
        split; [apply Z.leb_le | apply Z.ltb_lt]; lia.
    + destruct (IH (start + g) ts Hg) as [stop' Hstop']; [lia | lia |].
      exists stop'. rewrite filter_cons_False.
      * rewrite Hstop'. do 2 f_equal.
        replace (ts - start) with (ts - (start + g) + 1 * g) by lia.
        rewrite Z.div_add by lia. lia.
      * unfold DataLoader.within. simpl. intros [_ H]%andb_true_iff.
        apply Z.ltb_lt in H. lia.
Qed.

Lemma set_temporal_id_timestamp segment d :
  DataLoader.timestamp (DataLoader.set_temporal_id segment d)
  = DataLoader.timestamp d.
Proof.
  unfold DataLoader.set_temporal_id. now destruct (DataLoader.in_segment _ _).
Qed.

Lemma classify_no_match segments : forall d,
  filter (fun segment => DataLoader.within segment (DataLoader.timestamp d) = true)
         segments = [] ->
  DataLoader.classify segments d = d.
Proof.
  induction segments as [|segment rest IH]; intros d Hnone; [reflexivity|].
  rewrite filter_cons in Hnone. destruct (decide _) as [|Hout]; [discriminate|].
  unfold DataLoader.classify. simpl. unfold DataLoader.set_temporal_id at 2.
  unfold DataLoader.in_segment.
  apply not_true_is_false in Hout. rewrite Hout. now apply IH.
Qed.

Lemma classify_one_match segments : forall d segment,
  filter (fun segment => DataLoader.within segment (DataLoader.timestamp d) = true)
         segments = [segment] ->
  DataLoader.classify segments d
  = {| DataLoader._id := DataLoader._id d;
       DataLoader.vehicle := DataLoader.vehicle d;
       DataLoader.timestamp := DataLoader.timestamp d;
       DataLoader.temporal := Some (fst segment) |}.
Proof.
  induction segments as [|first rest IH]; intros d segment Hone; [discriminate|].
  rewrite filter_cons in Hone. unfold DataLoader.classify. simpl.
  fold (DataLoader.classify rest (DataLoader.set_temporal_id first d)).
  destruct (decide _) as [Hin|Hout].
  - injection Hone as -> Hrest.
    unfold DataLoader.set_temporal_id, DataLoader.in_segment. rewrite Hin.
    now apply classify_no_match.
  - unfold DataLoader.set_temporal_id, DataLoader.in_segment.
    apply not_true_is_false in Hout. rewrite Hout. now apply IH.
Qed.

Lemma update_all_segments segments : forall docs num_updated,
  fst (fold_left DataLoader.update_segment segments (docs, num_updated))
  = map (DataLoader.classify segments) docs.
Proof.
  induction segments as [|segment rest IH]; intros docs num_updated.
  - simpl. now rewrite map_id.
  - simpl. rewrite IH, map_map. reflexivity.
Qed.

Lemma fold_min_le l : forall a,
  fold_left Z.min l a <= a /\ forall y, y ∈ l -> fold_left Z.min l a <= y.
Proof.
  induction l as [|z l IH]; intros a; simpl.
  - split; [lia|]. intros y Hy. now apply elem_of_nil in Hy.
  - destruct (IH (Z.min a z)) as [Hinit Helem]. split; [lia|].
    intros y [->|Hy]%elem_of_cons; [lia | now apply Helem].
Qed.

Lemma fold_max_ge l : forall a,
  a <= fold_left Z.max l a /\ forall y, y ∈ l -> y <= fold_left Z.max l a.
Proof.
  induction l as [|z l IH]; intros a; simpl.
  - split; [lia|]. intros y Hy. now apply elem_of_nil in Hy.
  - destruct (IH (Z.max a z)) as [Hinit Helem]. split; [lia|].
    intros y [->|Hy]%elem_of_cons; [lia | now apply Helem].
Qed.

Lemma timestamp_in_range d docs x :
  x ∈ d :: docs ->
  DataLoader.min_timestamp d docs <= DataLoader.timestamp x
  <= DataLoader.max_timestamp d docs.
Proof.
  unfold DataLoader.min_timestamp, DataLoader.max_timestamp.
  destruct (fold_min_le (map DataLoader.timestamp docs) (DataLoader.timestamp d))
    as [Hmin Hmins].
  destruct (fold_max_ge (map DataLoader.timestamp docs) (DataLoader.timestamp d))
    as [Hmax Hmaxs].
  intros [->|Hx]%elem_of_cons; [lia|].
  assert (Hts : DataLoader.timestamp x ∈ map DataLoader.timestamp docs)
    by (apply list_elem_of_In, in_map, list_elem_of_In, Hx).
  split; [apply Hmins | apply Hmaxs]; exact Hts.
Qed.

Lemma stepping self start stop :
  0 < DataLoader.temporal_granularity self -> start < stop ->
  exists n,
    DataLoader.get_time_segments self start stop
    = Ok (DataLoader.consecutive
            (py.arange_from start (DataLoader.temporal_granularity self) (S n)
             ++ [stop])) /\
    start + Z.of_nat n * DataLoader.temporal_granularity self < stop
    <= start + (Z.of_nat n + 1) * DataLoader.temporal_granularity self.
Proof.
  intros Hg Hlt.
  destruct (arange_length_bounds start stop _ Hg Hlt) as (n & Hn & Hbounds).
  exists n. split; [|exact Hbounds].
  unfold DataLoader.get_time_segments, py.arange.
  destruct (Z.eqb_spec (DataLoader.temporal_granularity self) 0); [lia|].
  now rewrite Hn.
Qed.

(** C4. With a positive granularity, the boundaries step from the
    smallest timestamp by the granularity and end with the largest
    timestamp plus one; every timestamp from the smallest to the largest
    lies in exactly one of the resulting half-open segments, the one that
    starts at [min_ts + (ts - min_ts) / granularity * granularity], and
    every document gets that start as its temporal id.  The range
    [100, 250] with granularity 100 gives the segments [100, 200) and
    [200, 251), and timestamp 250 gets temporal id 200. *)
Theorem temporal_bucketing :
  (forall self d rest,
     let g := DataLoader.temporal_granularity self in
     let min_ts := DataLoader.min_timestamp d rest in
     let max_ts := DataLoader.max_timestamp d rest in
     let bucket ts := min_ts + (ts - min_ts) / g * g in
     0 < g ->
     exists n segments num_updated warned,
       segments = DataLoader.consecutive
                    (py.arange_from min_ts g (S n) ++ [max_ts + 1]) /\
       DataLoader.get_time_segments self min_ts (max_ts + 1) = Ok segments /\
       (forall ts, min_ts <= ts <= max_ts ->
          exists segment_end,
            filter (fun segment => DataLoader.within segment ts = true) segments
            = [(bucket ts, segment_end)]) /\
       DataLoader.compute_temporal_id_and_update_db self (d :: rest)
       = Ok (map (fun x =>
                    {| DataLoader._id := DataLoader._id x;
                       DataLoader.vehicle := DataLoader.vehicle x;
                       DataLoader.timestamp := DataLoader.timestamp x;
                       DataLoader.temporal :=
                         Some (bucket (DataLoader.timestamp x)) |})
                 (d :: rest),
             num_updated, warned)) /\
  DataLoader.get_time_segments (loader 100) 100 (250 + 1)
  = Ok [(100, 200); (200, 251)] /\
  DataLoader.compute_temporal_id_and_update_db (loader 100)
    [sample 0 100; sample 1 250]
  = Ok ([ {| DataLoader._id := 0; DataLoader.vehicle := 0;
             DataLoader.timestamp := 100; DataLoader.temporal := Some 100 |};
          {| DataLoader._id := 1; DataLoader.vehicle := 0;
             DataLoader.timestamp := 250; DataLoader.temporal := Some 200 |} ],
        2, false).
Proof.
  split; [|split; reflexivity].
  intros self d rest g min_ts max_ts bucket Hg.
  assert (Hrange : min_ts <= max_ts).
  { pose proof (timestamp_in_range d rest d ltac:(left)). subst min_ts max_ts. lia. }
  destruct (stepping self min_ts (max_ts + 1) Hg ltac:(lia)) as (n & Hsegs & Hn).
  fold g in Hsegs, Hn.
  assert (Hone : forall ts, min_ts <= ts <= max_ts ->
    exists segment_end,
      filter (fun segment => DataLoader.within segment ts = true)
        (DataLoader.consecutive (py.arange_from min_ts g (S n) ++ [max_ts + 1]))
      = [(bucket ts, segment_end)]).
  { intros ts Hts. apply segments_exactly_one; [assumption | assumption | lia]. }
  set (segments := DataLoader.consecutive _) in *.
  destruct (fold_left DataLoader.update_segment segments (d :: rest, 0))
    as [docs' num_updated] eqn:Hfold.
  exists n, segments, num_updated, (num_updated =? 0).
  split; [reflexivity|]. split; [exact Hsegs|]. split; [exact Hone|].
  unfold DataLoader.compute_temporal_id_and_update_db.
  fold min_ts max_ts. rewrite Hsegs. simpl. rewrite Hfold.
  do 3 f_equal.
  pose proof (update_all_segments segments (d :: rest) 0) as Hmap.
  rewrite Hfold in Hmap. simpl in Hmap. rewrite Hmap.
  change (map (DataLoader.classify segments) (d :: rest)
          = map (fun x =>
                   {| DataLoader._id := DataLoader._id x;
                      DataLoader.vehicle := DataLoader.vehicle x;
                      DataLoader.timestamp := DataLoader.timestamp x;
                      DataLoader.temporal :=
                        Some (bucket (DataLoader.timestamp x)) |}) (d :: rest)).
  apply map_ext_in. intros x Hx%list_elem_of_In.
  apply timestamp_in_range in Hx. fold min_ts max_ts in Hx.
  destruct (Hone _ Hx) as [segment_end Hseg].
  now rewrite (classify_one_match _ _ _ Hseg).
Qed.

Lemma temporal_bucketing_witness :
  exists n segments num_updated warned,
    segments = DataLoader.consecutive (py.arange_from 100 100 (S n) ++ [251]) /\
    DataLoader.get_time_segments (loader 100) 100 251 = Ok segments /\
    (forall ts, 100 <= ts <= 250 ->
       exists segment_end,
         filter (fun segment => DataLoader.within segment ts = true) segments
         = [(100 + (ts - 100) / 100 * 100, segment_end)]) /\
    DataLoader.compute_temporal_id_and_update_db (loader 100)
      [sample 0 100; sample 1 250]
    = Ok (map (fun x =>
                 {| DataLoader._id := DataLoader._id x;
                    DataLoader.vehicle := DataLoader.vehicle x;
                    DataLoader.timestamp := DataLoader.timestamp x;
                    DataLoader.temporal :=
                      Some (100 + (DataLoader.timestamp x - 100) / 100 * 100) |})
              [sample 0 100; sample 1 250],
          num_updated, warned).
Proof.
  apply (proj1 temporal_bucketing (loader 100) (sample 0 100) [sample 1 250]).
  reflexivity.
Defined.

Lemma no_segments_backwards self start stop :
  DataLoader.temporal_granularity self < 0 -> start < stop ->
  DataLoader.get_time_segments self start stop = Ok [].
Proof.
  intros Hg Hlt. unfold DataLoader.get_time_segments, py.arange.
  destruct (Z.eqb_spec (DataLoader.temporal_granularity self) 0); [lia|].
  unfold py.arange_length.
  assert (Hq : 0 <= (start - stop) / DataLoader.temporal_granularity self).
  { rewrite <- Z.div_opp_opp by lia. apply Z.div_pos; lia. }
  rewrite Z2Nat.nonpos by lia. reflexivity.
Qed.

(** C9, as the code has it. Construction validates nothing: it succeeds
    for every granularity and keeps it as given.  A negative granularity
    then yields no segment, so that no temporal id is set and only the
    warning is issued; a zero granularity fails when the segments are
    computed, with the [ZeroDivisionError] of the stepping.  The smallest
    timestamp never exceeds the largest, both being read from the
    collection. *)
Theorem granularity_not_validated :
  (forall g mongo_uri db_name collection_name,
     exists self,
       DataLoader.init g mongo_uri db_name collection_name = Ok self /\
       DataLoader.temporal_granularity self = g) /\
  (forall self d rest,
     DataLoader.temporal_granularity self < 0 ->
     DataLoader.compute_temporal_id_and_update_db self (d :: rest)
     = Ok (d :: rest, 0, true)) /\
  (forall self d rest,
     DataLoader.temporal_granularity self = 0 ->
     DataLoader.compute_temporal_id_and_update_db self (d :: rest)
     = Raise ZeroDivisionError) /\
  (forall d rest,
     DataLoader.min_timestamp d rest <= DataLoader.max_timestamp d rest).
Proof.
  assert (Hrange : forall d rest,
    DataLoader.min_timestamp d rest <= DataLoader.max_timestamp d rest).
  { intros d rest. pose proof (timestamp_in_range d rest d ltac:(left)). lia. }
  split; [|split; [|split; [|exact Hrange]]].
  - intros g mongo_uri db_name collection_name. eexists. split; reflexivity.
  - intros self d rest Hg. unfold DataLoader.compute_temporal_id_and_update_db.
    rewrite no_segments_backwards; [reflexivity | assumption |].
    specialize (Hrange d rest). lia.
  - intros self d rest Hg. unfold DataLoader.compute_temporal_id_and_update_db,
      DataLoader.get_time_segments, py.arange.
    now rewrite Hg.
Qed.

Lemma granularity_not_validated_witness :
  DataLoader.compute_temporal_id_and_update_db (loader (-100))
    [sample 0 100; sample 1 250]
  = Ok ([sample 0 100; sample 1 250], 0, true) /\
  DataLoader.compute_temporal_id_and_update_db (loader 0)
    [sample 0 100; sample 1 250]
  = Raise ZeroDivisionError.
Proof.
  destruct granularity_not_validated as (_ & Hneg & Hzero & _).
  split; [apply Hneg | apply Hzero]; reflexivity.
Defined.

(** Against C9: construction with a negative and with a zero granularity
    succeeds, where the claim expects a validation error. *)
Lemma nonpositive_granularity_accepted :
  DataLoader.init (-100) "mongodb://localhost:27017/" "modulo" "mobility_data"
  = Ok (loader (-100)) /\
  DataLoader.init 0 "mongodb://localhost:27017/" "modulo" "mobility_data"
  = Ok (loader 0) /\
  DataLoader.get_time_segments (loader (-100)) 100 251 = Ok [] /\
  ~ (exists why,
       DataLoader.init (-100) "mongodb://localhost:27017/" "modulo"
         "mobility_data" = Raise (ValueError why)).
Proof.
  repeat split. intros [why H]. discriminate H.
Qed.

End TemporalBuckets.

(** ** GreedyVehicleSelector: the greedy selection *)

Section Scan.

Import GreedyVehicleSelector.

Implicit Types (c : candidate) (v w : Z) (l pool : list Z).

(** The scan of the pool keeps the first vehicle, in iteration order,
    whose count exceeds the initial count and all the counts before it,
    and is not exceeded after it. *)
Lemma scan_pool df_train coverage pool : forall c,
  (fold_left (consider df_train coverage) pool c = c /\
   forall w, w ∈ pool -> (new_count df_train coverage w <= snd c)%nat) \/
  (exists before v after,
     pool = before ++ v :: after /\
     fold_left (consider df_train coverage) pool c
     = (v, elements (new_coverage df_train coverage v),
        new_count df_train coverage v) /\
     (snd c < new_count df_train coverage v)%nat /\
     (forall w, w ∈ before ->
        (new_count df_train coverage w < new_count df_train coverage v)%nat) /\
     (forall w, w ∈ after ->
        (new_count df_train coverage w <= new_count df_train coverage v)%nat)).
Proof.
  induction pool as [|x pool IH]; intros c; simpl.
  - left. split; [reflexivity|]. intros w Hw. now apply elem_of_nil in Hw.
  - unfold consider at 2 4.
    destruct (Nat.ltb_spec (snd c) (new_count df_train coverage x)) as [Hlt|Hge].
    + right.
      destruct (IH (x, elements (new_coverage df_train coverage x),
                    new_count df_train coverage x))
        as [[Hsame Hall]|(before & v & after & -> & Hbest & Hv & Hbefore & Hafter)].
      * exists [], x, pool. repeat split; try assumption.
        intros w Hw. now apply elem_of_nil in Hw.
      * exists (x :: before), v, after. simpl in Hv.
        repeat split; try assumption; [lia|].
        intros w [->|Hw]%elem_of_cons; [assumption | now apply Hbefore].
    + destruct (IH c)
        as [[Hsame Hall]|(before & v & after & -> & Hbest & Hv & Hbefore & Hafter)].
      * left. split; [assumption|].
        intros w [->|Hw]%elem_of_cons; [assumption | now apply Hall].
      * right. exists (x :: before), v, after.
        repeat split; try assumption.
        intros w [->|Hw]%elem_of_cons; [lia | now apply Hbefore].
Qed.

(** The same for the builtin [max]. *)
Lemma max_from_first {A : Type} (key : A -> nat) (items : list A) : forall best,
  exists before after,
    best :: items = before ++ py.max_from key best items :: after /\
    (forall a, a ∈ before -> (key a < key (py.max_from key best items))%nat) /\
    (forall a, a ∈ after -> (key a <= key (py.max_from key best items))%nat).
Proof.
  induction items as [|x items IH]; intros best; simpl.
  - exists [], []. repeat split; intros a Ha; now apply elem_of_nil in Ha.
  - destruct (Nat.ltb_spec (key best) (key x)) as [Hlt|Hge].
    + destruct (IH x) as (before & after & Heq & Hbefore & Hafter).
      exists (best :: before), after. rewrite Heq. repeat split; [|assumption].
      intros a [->|Ha]%elem_of_cons; [|now apply Hbefore].
      destruct before as [|b before]; injection Heq as Hb Hrest.
      * now rewrite <- Hb.
      * subst b. specialize (Hbefore x ltac:(left)). lia.
    + destruct (IH best) as (before & after & Heq & Hbefore & Hafter).
      destruct before as [|b before]; injection Heq as Hb Hrest.
      * exists [], (x :: after). rewrite <- Hb at 1. rewrite <- Hrest.
        repeat split.
        -- intros a Ha. now apply elem_of_nil in Ha.
        -- intros a [->|Ha]%elem_of_cons; [now rewrite <- Hb|].
           apply Hafter. now rewrite <- Hrest.
      * subst b. exists (best :: x :: before), after.
        split; [simpl; do 2 f_equal; exact Hrest|]. split; [|assumption].
        intros a [->|[->|Ha]%elem_of_cons]%elem_of_cons.
        -- apply Hbefore. left.
        -- specialize (Hbefore best ltac:(left)). lia.
        -- apply Hbefore. now right.
Qed.

End Scan.

Section Iteration.

Import GreedyVehicleSelector.

Context {S : Type} {total : py.PySet S}.

Implicit Types (st : state S) (i j : Z) (v w : Z) (n : nat) (steps : list Z).

Lemma iteration_some st i st' :
  iteration st i = Some st' ->
  exists before v after,
    py.iter (total_vehicles st) = before ++ v :: after /\
    -1 < v /\
    st' = {| current_vehicles := current_vehicles st ++ [v];
             current_coverage :=
               elements (new_coverage (df_train st) (current_coverage st) v);
             current_count := current_count st ++ [union_count st v];
             iteration_count := iteration_count st ++ [i];
             df_train := rows_not_of v (df_train st);
             total_vehicles := py.isub (total_vehicles st) v |} /\
    (last_count st < union_count st v)%nat /\
    (forall w, w ∈ before -> (union_count st w < union_count st v)%nat) /\
    (forall w, w ∈ after -> (union_count st w <= union_count st v)%nat).
Proof.
  unfold iteration, best_candidate.
  destruct (scan_pool (df_train st) (current_coverage st)
              (py.iter (total_vehicles st))
              (-1, [], last_count st))
    as [[-> _]|(before & v & after & Hpool & -> & Hv & Hbefore & Hafter)].
  - simpl. discriminate.
  - destruct (Z.ltb_spec (-1) v) as [Hpos|]; [|discriminate].
    intros [= <-]. exists before, v, after. repeat split; assumption.
Qed.

Lemma iteration_none st i :
  exhausted st -> iteration st i = None.
Proof.
  intros Hnone. destruct (iteration st i) as [st'|] eqn:Hit; [|reflexivity].
  apply iteration_some in Hit
    as (before & v & after & Hpool & _ & _ & Hgain & _).
  specialize (Hnone v). rewrite Hpool in Hnone.
  specialize (Hnone ltac:(apply elem_of_app; right; left)). lia.
Qed.

Lemma iteration_none_any st i j :
  iteration st i = None -> iteration st j = None.
Proof.
  unfold iteration. destruct (best_candidate st) as [[v coverage] c].
  now destruct (-1 <? v).
Qed.

Lemma loop_broken n steps st i :
  iteration st i = None -> loop n steps st = st.
Proof.
  intros Hnone. induction steps as [|j steps IH]; [reflexivity|].
  simpl. rewrite (iteration_none_any st i j Hnone).
  now destruct (j <=? Z.of_nat n).
Qed.

Lemma loop_app n steps more : forall st,
  loop n (steps ++ more) st = loop n more (loop n steps st).
Proof.
  induction steps as [|i steps IH]; intros st; [reflexivity|].
  simpl. destruct (i <=? Z.of_nat n); [|apply IH].
  destruct (iteration st i) as [st'|] eqn:Hit; [apply IH|].
  symmetry. now apply loop_broken with i.
Qed.

Lemma loop_length n steps : forall st,
  (length (current_vehicles (loop n steps st))
   <= length (current_vehicles st) + length steps)%nat.
Proof.
  induction steps as [|i steps IH]; intros st; simpl; [lia|].
  destruct (i <=? Z.of_nat n); [|specialize (IH st); lia].
  destruct (iteration st i) as [st'|] eqn:Hit; [|lia].
  apply iteration_some in Hit as (_ & v & _ & _ & _ & -> & _).
  specialize (IH {| current_vehicles := current_vehicles st ++ [v];
    current_coverage := elements (new_coverage (df_train st) (current_coverage st) v);
    current_count := current_count st ++ [union_count st v];
    iteration_count := iteration_count st ++ [i];
    df_train := rows_not_of v (df_train st);
    total_vehicles := py.isub (total_vehicles st) v |}).
  simpl in IH. rewrite length_app in IH. simpl in IH. lia.
Qed.

Lemma Sorted_snoc (counts : list nat) (c : nat) :
  counts <> [] -> Sorted lt counts -> (List.last counts 0 < c)%nat ->
  Sorted lt (counts ++ [c]).
Proof.
  induction counts as [|a counts IH]; [congruence|]. intros _ Hsorted Hlast.
  apply Sorted_inv in Hsorted as [Hsorted Hhd].
  destruct counts as [|b counts].
  - simpl in *. repeat constructor. exact Hlast.
  - simpl. constructor.
    + apply IH; [discriminate | assumption | exact Hlast].
    + constructor. now apply HdRel_inv in Hhd.
Qed.

Lemma loop_recorded n steps : forall st,
  recorded st -> recorded (loop n steps st).
Proof.
  induction steps as [|i steps IH]; intros st Hst; [assumption|].
  simpl. destruct (i <=? Z.of_nat n); [|now apply IH].
  destruct (iteration st i) as [st'|] eqn:Hit; [|assumption].
  apply IH. destruct Hst as (Hne & Hsorted & Hlen).
  apply iteration_some in Hit as (_ & v & _ & _ & _ & -> & Hgain & _).
  repeat split; simpl.
  - intros H. now apply app_eq_nil in H as [_ H].
  - now apply Sorted_snoc.
  - rewrite !length_app. simpl. lia.
Qed.

Lemma range_shift (c : Z) (offset len : nat) : forall first,
  map (fun x => c + Z.of_nat x) (seq (offset + first) len)
  = map (fun x => c + Z.of_nat offset + Z.of_nat x) (seq first len).
Proof.
  induction len as [|len IH]; intros first; [reflexivity|].
  simpl. f_equal; [lia|]. rewrite <- IH. now rewrite Nat.add_succ_r.
Qed.

Lemma range_split (a j k : Z) :
  a <= j <= k -> py.range a k = py.range a j ++ py.range j k.
Proof.
  intros Hj. unfold py.range.
  replace (Z.to_nat (k - a)) with (Z.to_nat (j - a) + Z.to_nat (k - j))%nat by lia.
  rewrite seq_app, map_app. f_equal.
  rewrite Nat.add_0_l, <- (Nat.add_0_r (Z.to_nat (j - a))), range_shift.
  apply map_ext. intros x. lia.
Qed.

End Iteration.

Section GreedyRun.

Import GreedyVehicleSelector.

Context {S : Type} {total : py.PySet S}.
Variable value_counts_order : list Z -> list Z.

Implicit Types (df : dataframe) (k i j : Z) (st : state S) (n : nat).

Local Abbreviation first_pick := (first_pick S value_counts_order).
Local Abbreviation greedy := (max_coverage_greedy_logic S value_counts_order).

Lemma first_pick_ok df :
  df <> [] ->
  value_counts_order (map vehicle_id df) ≡ₚ py.unique (map vehicle_id df) ->
  exists n st, first_pick df = Ok (n, st) /\ recorded st /\
               length (current_vehicles st) = 1%nat.
Proof.
  intros Hne Hperm. unfold GreedyVehicleSelector.first_pick, stats.
  destruct (value_counts_order (map vehicle_id df)) as [|v order] eqn:Horder.
  - destruct df as [|r df]; [congruence|]. simpl in Hperm.
    now apply Permutation_nil_cons in Hperm.
  - simpl. eexists _, _. split; [reflexivity|]. split; [|reflexivity].
    repeat split; simpl; [discriminate | repeat constructor].
Qed.

(** C2, for a train table with at least one row. The selection returns;
    the counts it records are strictly increasing from each selection
    step to the next, one count per selected vehicle; and when, with
    iterations still to run, no remaining vehicle adds coverage, the
    selection stops there and returns fewer than [k] vehicles. *)
Theorem greedy_counts_increase df k :
  df <> [] ->
  value_counts_order (map vehicle_id df) ≡ₚ py.unique (map vehicle_id df) ->
  exists n st0,
    first_pick df = Ok (n, st0) /\
    let final := loop n (py.range 1 k) st0 in
    greedy df k
    = Ok (current_vehicles final, current_coverage final,
          current_count final, iteration_count final) /\
    Sorted lt (current_count final) /\
    length (current_count final) = length (current_vehicles final) /\
    forall j, 1 <= j < k ->
      let st := loop n (py.range 1 j) st0 in
      exhausted st ->
      final = st /\ Z.of_nat (length (current_vehicles st)) < k.
Proof.
  intros Hne Hperm.
  destruct (first_pick_ok df Hne Hperm) as (n & st0 & Hfirst & Hrec & Hone).
  exists n, st0. split; [exact Hfirst|]. intros final.
  split; [|split; [|split]].
  - unfold max_coverage_greedy_logic. now rewrite Hfirst.
  - apply (loop_recorded n (py.range 1 k) st0 Hrec).
  - apply (loop_recorded n (py.range 1 k) st0 Hrec).
  - intros j Hj st Hstuck. split.
    + subst final. rewrite (range_split 1 j k) by lia. rewrite loop_app.
      fold st. apply loop_broken with j. now apply iteration_none.
    + pose proof (loop_length n (py.range 1 j) st0) as Hlen. fold st in Hlen.
      unfold py.range in Hlen. rewrite length_map, length_seq, Hone in Hlen. lia.
Qed.

Lemma first_pick_first_max df n st0 :
  first_pick df = Ok (n, st0) ->
  let rows v := py.count_occurrences v (map vehicle_id df) in
  exists before v after,
    value_counts_order (map vehicle_id df) = before ++ v :: after /\
    current_vehicles st0 = [v] /\
    (forall w, w ∈ before -> (rows w < rows v)%nat) /\
    (forall w, w ∈ after -> (rows w <= rows v)%nat).
Proof.
  intros Hfirst rows.
  unfold GreedyVehicleSelector.first_pick, stats in Hfirst.
  set (item := fun v : Z => (v, rows v)).
  change (fun v : Z => (v, py.count_occurrences v (map vehicle_id df)))
    with item in Hfirst.
  destruct (value_counts_order (map vehicle_id df)) as [|x order];
    [discriminate|].
  simpl in Hfirst. injection Hfirst as _ <-. simpl.
  destruct (max_from_first snd (map item order) (item x))
    as (before & after & Heq & Hbefore & Hafter).
  set (m := py.max_from snd _ _) in *.
  change (item x :: map item order) with (map item (x :: order)) in Heq.
  apply map_eq_app in Heq as (l1 & l2 & Hsplit & <- & Hl2).
  apply map_eq_cons in Hl2 as (v & l3 & -> & Hv & <-).
  exists l1, v, l3. subst m. rewrite <- Hv in *. simpl.
  split; [exact Hsplit|]. split; [reflexivity|]. split.
  - intros w Hw. apply (Hbefore (item w)).
    apply list_elem_of_In, (in_map item), list_elem_of_In, Hw.
  - intros w Hw. apply (Hafter (item w)).
    apply list_elem_of_In, (in_map item), list_elem_of_In, Hw.
Qed.

(** C1, as the code has it.  Ties go to the vehicle that comes first in
    iteration order: the first pick is the first vehicle, in the order of
    [value_counts()], with the largest number of rows; each later pick is
    the first vehicle, in the order in which the set of the remaining
    vehicles is iterated at that step, with the largest union count,
    which exceeds the count before, and the pick is then taken out of
    the set.  When the set is iterated by ascending vehicle id at that
    step, the pick has the smallest id among the vehicles of equal union
    count. *)
Theorem ties_follow_iteration_order :
  (forall df n st0,
     first_pick df = Ok (n, st0) ->
     let rows v := py.count_occurrences v (map vehicle_id df) in
     exists before v after,
       value_counts_order (map vehicle_id df) = before ++ v :: after /\
       current_vehicles st0 = [v] /\
       (forall w, w ∈ before -> (rows w < rows v)%nat) /\
       (forall w, w ∈ after -> (rows w <= rows v)%nat)) /\
  (forall st i st',
     iteration st i = Some st' ->
     exists before v after,
       py.iter (total_vehicles st) = before ++ v :: after /\
       current_vehicles st' = current_vehicles st ++ [v] /\
       total_vehicles st' = py.isub (total_vehicles st) v /\
       (last_count st < union_count st v)%nat /\
       (forall w, w ∈ before -> (union_count st w < union_count st v)%nat) /\
       (forall w, w ∈ after -> (union_count st w <= union_count st v)%nat) /\
       (StronglySorted Z.lt (py.iter (total_vehicles st)) ->
        forall w, w ∈ py.iter (total_vehicles st) ->
                  union_count st w = union_count st v -> v <= w)).
Proof.
  split; [exact first_pick_first_max|].
  intros st i st' Hit.
  apply iteration_some in Hit
    as (before & v & after & Hpool & _ & -> & Hgain & Hbefore & Hafter).
  exists before, v, after. simpl. repeat split; try assumption.
  intros Hsorted w Hw Hsame. rewrite Hpool in Hsorted, Hw.
  apply StronglySorted_app_1_r, StronglySorted_inv in Hsorted as [_ Hsorted].
  rewrite Forall_forall in Hsorted.
  apply elem_of_app in Hw as [Hw|[->|Hw]%elem_of_cons].
  - specialize (Hbefore w Hw). lia.
  - lia.
  - specialize (Hsorted w Hw). lia.
Qed.

End GreedyRun.

Lemma greedy_counts_increase_witness :
  exists n st0,
    GreedyVehicleSelector.first_pick py.table py.value_counts_index tie_table
    = Ok (n, st0) /\
    let final := GreedyVehicleSelector.loop n (py.range 1 5) st0 in
    GreedyVehicleSelector.max_coverage_greedy_logic
      py.table py.value_counts_index tie_table 5
    = Ok (GreedyVehicleSelector.current_vehicles final,
          GreedyVehicleSelector.current_coverage final,
          GreedyVehicleSelector.current_count final,
          GreedyVehicleSelector.iteration_count final) /\
    Sorted lt (GreedyVehicleSelector.current_count final) /\
    length (GreedyVehicleSelector.current_count final)
    = length (GreedyVehicleSelector.current_vehicles final) /\
    forall j, 1 <= j < 5 ->
      let st := GreedyVehicleSelector.loop n (py.range 1 j) st0 in
      GreedyVehicleSelector.exhausted st ->
      final = st /\
      Z.of_nat (length (GreedyVehicleSelector.current_vehicles st)) < 5.
Proof.
  apply (greedy_counts_increase (total := py.cpython) py.value_counts_index
           tie_table 5).
  - discriminate.
  - vm_compute. reflexivity.
Defined.

(** Against C2: on the empty train table the selection raises, instead of
    returning a short selection.  The table is empty when every
    temporal_id lies after the split timestamp. *)
Lemma greedy_raises_on_empty_table :
  GreedyVehicleSelector.max_coverage_greedy_logic
    py.table py.value_counts_index [] 2
  = Raise (ValueError max_of_empty_sequence) /\
  exists self,
    VehicleSelector.init metrics.METRICS_LIST 2 tie_table (-1)
      (VehicleSelector.metric_name "percentage_coverage") = Ok self /\
    VehicleSelector.df_train self = [] /\
    GreedyVehicleSelector.train py.table py.value_counts_index self
    = Raise (ValueError max_of_empty_sequence).
Proof.
  split; [reflexivity|]. eexists. split; [reflexivity|]. split; reflexivity.
Qed.

Lemma ties_follow_iteration_order_witness :
  exists n st0,
    GreedyVehicleSelector.first_pick py.table py.value_counts_index tie_table
    = Ok (n, st0) /\
    (exists before v after,
       py.value_counts_index (map vehicle_id tie_table) = before ++ v :: after /\
       GreedyVehicleSelector.current_vehicles st0 = [v] /\
       (forall w, w ∈ before ->
          (py.count_occurrences w (map vehicle_id tie_table)
           < py.count_occurrences v (map vehicle_id tie_table))%nat) /\
       (forall w, w ∈ after ->
          (py.count_occurrences w (map vehicle_id tie_table)
           <= py.count_occurrences v (map vehicle_id tie_table))%nat)).
Proof.
  eexists _, _. split; [reflexivity|].
  apply (proj1 (ties_follow_iteration_order (total := py.cpython)
                  py.value_counts_index)
           tie_table _ _ eq_refl).
Defined.

(** Against C1: with the set of CPython, the second pick on [tie_table]
    is vehicle 8, although vehicle 1 reaches the same union count (3) and
    has the smaller id, the one that the tie-break of the specification
    picks: the set of the remaining vehicles is iterated 8, 1. *)
Lemma tie_not_broken_by_agent_id :
  (exists coverage,
     GreedyVehicleSelector.max_coverage_greedy_logic
       py.table py.value_counts_index tie_table 2
     = Ok ([2; 8], coverage, [2; 3]%nat, [0; 1])) /\
  py.iter (py.isub (py.set_of (py.unique (map vehicle_id tie_table)) : py.table) 2)
  = [8; 1] /\
  GreedyVehicleSelector.new_count (rows_not_of 2 tie_table) ["a"; "b"] 8 = 3%nat /\
  GreedyVehicleSelector.new_count (rows_not_of 2 tie_table) ["a"; "b"] 1 = 3%nat /\
  spec.pick (GreedyVehicleSelector.new_count (rows_not_of 2 tie_table) ["a"; "b"])
            [8; 1]
  = Some 1.
Proof. split; [eexists; reflexivity|]. repeat split. Qed.

(** The order of the set is not determined by its elements.  On
    [rebuilt_table] the vehicles 2 and 3 are picked first; taking both
    out of the set of CPython rebuilds its table, and the two vehicles
    left, iterated 8, 1 until then, are iterated 1, 8: of the two, which
    reach the same union count, the third pick is vehicle 1. *)
Lemma order_depends_on_removals :
  (exists coverage,
     GreedyVehicleSelector.max_coverage_greedy_logic
       py.table py.value_counts_index rebuilt_table 3
     = Ok ([2; 3; 1], coverage, [3; 5; 6]%nat, [0; 1; 2])) /\
  py.iter (py.set_of [2; 3; 8; 1] : py.table) = [8; 1; 2; 3] /\
  py.iter (py.isub (py.set_of [2; 3; 8; 1] : py.table) 2) = [8; 1; 3] /\
  py.iter (py.isub (py.isub (py.set_of [2; 3; 8; 1] : py.table) 2) 3) = [1; 8] /\
  py.iter (py.set_of [8; 1] : py.table) = [8; 1].
Proof. split; [eexists; reflexivity|]. repeat split. Qed.

(** ** The scenario of three agents *)

Section Scenario.

Import GreedyVehicleSelector.

Variables A B C : Z.
Hypothesis distinct : A <> B /\ A <> C /\ B <> C.

(** Decide the filters on vehicle ids, row by row. *)
Ltac by_vehicle :=
  repeat first
    [ rewrite filter_nil
    | rewrite filter_cons_True by (simpl; tauto || congruence)
    | rewrite filter_cons_False by (simpl; tauto || congruence) ].

Lemma scenario_rows :
  rows_of A (scenario A B C) = [covers A "s1"; covers A "s2"] /\
  rows_of B (scenario A B C) = [covers B "s2"; covers B "s3"] /\
  rows_not_of A (scenario A B C)
  = [covers B "s2"; covers B "s3"; covers C "s4"] /\
  rows_not_of B (scenario A B C)
  = [covers A "s1"; covers A "s2"; covers C "s4"].
Proof.
  destruct distinct as (HAB & HAC & HBC).
  unfold rows_of, rows_not_of, scenario. repeat split; by_vehicle; reflexivity.
Qed.

Lemma scenario_counts :
  let column := map vehicle_id (scenario A B C) in
  py.count_occurrences A column = 2%nat /\
  py.count_occurrences B column = 2%nat /\
  py.count_occurrences C column = 1%nat.
Proof.
  destruct distinct as (HAB & HAC & HBC).
  unfold py.count_occurrences, scenario. simpl map.
  repeat split; by_vehicle; reflexivity.
Qed.

Lemma scenario_union_counts :
  new_count (rows_not_of A (scenario A B C)) ["s1"; "s2"] B = 3%nat /\
  new_count (rows_not_of A (scenario A B C)) ["s1"; "s2"] C = 3%nat /\
  new_count (rows_not_of B (scenario A B C)) ["s2"; "s3"] A = 3%nat /\
  new_count (rows_not_of B (scenario A B C)) ["s2"; "s3"] C = 3%nat /\
  new_coverage (rows_not_of A (scenario A B C)) ["s1"; "s2"] B
  = {[ "s1"; "s2"; "s3" ]} /\
  new_coverage (rows_not_of B (scenario A B C)) ["s2"; "s3"] A
  = {[ "s1"; "s2"; "s3" ]} /\
  new_coverage (rows_not_of A (scenario A B C)) ["s1"; "s2"] C
  = {[ "s1"; "s2"; "s4" ]} /\
  new_coverage (rows_not_of B (scenario A B C)) ["s2"; "s3"] C
  = {[ "s2"; "s3"; "s4" ]}.
Proof.
  destruct distinct as (HAB & HAC & HBC).
  destruct scenario_rows as (_ & _ & -> & ->).
  unfold new_count, new_coverage, rows_of.
  repeat split; by_vehicle; simpl map; reflexivity.
Qed.

Context {S : Type} {total : py.PySet S}.

(** The second step, when the set of the two remaining vehicles is
    iterated [P], [Q] and each of them would bring the count from 2 to
    3: [P] is the candidate, and is picked unless it is negative. *)
Lemma second_step (X P Q : Z) (coverage : list string) (rest : dataframe)
    (pool : S) (i : Z) :
  py.iter pool = [P; Q] ->
  new_count rest coverage P = 3%nat ->
  new_count rest coverage Q = 3%nat ->
  iteration {| current_vehicles := [X]; current_coverage := coverage;
               current_count := [2%nat]; iteration_count := [0];
               df_train := rest; total_vehicles := pool |} i
  = if -1 <? P
    then Some {| current_vehicles := [X; P];
                 current_coverage := elements (new_coverage rest coverage P);
                 current_count := [2; 3]%nat; iteration_count := [0; i];
                 df_train := rows_not_of P rest;
                 total_vehicles := py.isub pool P |}
    else None.
Proof.
  intros Hpool HnP HnQ. unfold iteration, best_candidate, last_count.
  cbn [current_vehicles current_coverage current_count iteration_count
       df_train total_vehicles List.last].
  rewrite Hpool. cbn [fold_left].
  unfold consider. rewrite HnP. cbn [snd Nat.ltb Nat.leb].
  rewrite HnQ. cbn [snd Nat.ltb Nat.leb].
  now destruct (-1 <? P).
Qed.

Variable value_counts_order : list Z -> list Z.

Local Abbreviation vehicles :=
  (py.set_of (py.unique (map vehicle_id (scenario A B C))) : S).

(** The first pick is [A] or [B], whichever [value_counts()] lists
    first. *)
Lemma scenario_first_pick :
  value_counts_order (map vehicle_id (scenario A B C)) ≡ₚ [A; B; C] ->
  exists X Y,
    ((X = A /\ Y = B) \/ (X = B /\ Y = A)) /\
    first_pick S value_counts_order (scenario A B C)
    = Ok (py.len vehicles,
          {| current_vehicles := [X];
             current_coverage :=
               map spatiotemporal_segment (rows_of X (scenario A B C));
             current_count := [2%nat]; iteration_count := [0];
             df_train := rows_not_of X (scenario A B C);
             total_vehicles := py.isub vehicles X |}).
Proof.
  intros Hvc.
  destruct scenario_counts as (HcA & HcB & HcC).
  destruct scenario_rows as (HrA & HrB & _ & _).
  remember (value_counts_order (map vehicle_id (scenario A B C))) as order
    eqn:Horder.
  symmetry in Hvc. apply permutations_Permutation in Hvc. cbv in Hvc.
  unfold first_pick, stats.
  repeat (apply elem_of_cons in Hvc as [Hvc|Hvc]);
    [..|now apply elem_of_nil in Hvc]; rewrite <- Horder, Hvc; cbn [map];
    rewrite HcA, HcB, HcC;
    cbn [py.max py.max_from snd fst Nat.ltb Nat.leb mbind result_bind];
    first [ solve [exists A, B; split; [tauto|]; rewrite ?HrA; reflexivity]
          | solve [exists B, A; split; [tauto|]; rewrite ?HrB; reflexivity] ].
Qed.


End Scenario.



Lemma train_test_partition_witness :
  exists self,
    VehicleSelector.init metrics.METRICS_LIST 2 tie_table 0
      (VehicleSelector.metric_name "percentage_coverage") = Ok self /\
    VehicleSelector.df_train self = tie_table /\
    VehicleSelector.df_test self = [].
Proof.
  eexists. split; [reflexivity|].
  apply (proj2 (proj2 (proj2 (proj2 (proj2
           (train_test_partition metrics.METRICS_LIST tie_table 0)))))
           2 (VehicleSelector.metric_name "percentage_coverage")).
  reflexivity.
Defined.

(** * Further properties of the code *)

(** ** metrics.percentage_coverage: range and monotonicity *)

Section CoverageOrder.

Implicit Types (df : dataframe) (selected more : list Z).

Lemma selected_segments_incl df selected more :
  (forall v, v ∈ selected -> v ∈ more) ->
  forall s,
    s ∈ py.unique (map spatiotemporal_segment
          (filter (fun r => py.isin (vehicle_id r) selected = true) df)) ->
    s ∈ py.unique (map spatiotemporal_segment
          (filter (fun r => py.isin (vehicle_id r) more = true) df)).
Proof.
  intros Hsub s. rewrite !unique_elem_of, !list_elem_of_In, !in_map_iff.
  intros (r & Hs & Hr). exists r. split; [exact Hs|].
  apply list_elem_of_In, list_elem_of_filter in Hr as [Hsel Hr].
  apply list_elem_of_In, list_elem_of_filter. split; [|exact Hr].
  unfold py.isin in *. apply bool_decide_eq_true.
  apply bool_decide_eq_true in Hsel. auto.
Qed.

Lemma selected_segments_all df selected :
  forall s,
    s ∈ py.unique (map spatiotemporal_segment
          (filter (fun r => py.isin (vehicle_id r) selected = true) df)) ->
    s ∈ py.unique (map spatiotemporal_segment df).
Proof.
  intros s. rewrite !unique_elem_of, !list_elem_of_In, !in_map_iff.
  intros (r & Hs & Hr). exists r. split; [exact Hs|].
  apply list_elem_of_In, list_elem_of_filter in Hr as [_ Hr].
  now apply list_elem_of_In.
Qed.

Lemma unique_length_le {A : Type} `{EqDecision A} (l l' : list A) :
  (forall x, x ∈ py.unique l -> x ∈ py.unique l') ->
  (length (py.unique l) <= length (py.unique l'))%nat.
Proof.
  intros Hsub. apply NoDup_incl_length.
  - apply NoDup_ListNoDup, unique_NoDup.
  - intros x Hx%list_elem_of_In. apply list_elem_of_In. auto.
Qed.

Lemma percentage_le (a b n : nat) :
  (a <= b)%nat -> n <> 0%nat ->
  (inject_Z (Z.of_nat a) / inject_Z (Z.of_nat n) * 100
   <= inject_Z (Z.of_nat b) / inject_Z (Z.of_nat n) * 100)%Q.
Proof.
  intros Hab Hn. apply Qmult_le_compat_r; [|discriminate].
  unfold Qdiv. apply Qmult_le_compat_r.
  - rewrite <- Zle_Qle. lia.
  - apply Qinv_le_0_compat. change 0%Q with (inject_Z 0).
    rewrite <- Zle_Qle. lia.
Qed.

(** On a non-empty table the coverage of any selection is a percentage:
    it lies between 0 and 100. *)
Theorem percentage_coverage_range df selected :
  df <> [] ->
  exists q, metrics.percentage_coverage selected df = Ok q /\
            (0 <= q <= 100)%Q.
Proof.
  intros Hne. pose proof (segments_nonempty df Hne) as Hlen.
  unfold metrics.percentage_coverage.
  rewrite (proj2 (Nat.eqb_neq _ _) Hlen).
  eexists. split; [reflexivity|]. split.
  - rewrite <- (nothing_is_0 (length (py.unique (map spatiotemporal_segment df)))).
    apply percentage_le; [lia | exact Hlen].
  - rewrite <- (whole_is_100 _ Hlen) at 2.
    apply percentage_le; [|exact Hlen].
    apply unique_length_le, selected_segments_all.
Qed.

(** Selecting more vehicles never lowers the coverage; in particular the
    coverage depends only on which vehicles are selected, not on their
    order or repetition in the list. *)
Theorem percentage_coverage_monotone df selected more :
  df <> [] ->
  (forall v, v ∈ selected -> v ∈ more) ->
  exists q q',
    metrics.percentage_coverage selected df = Ok q /\
    metrics.percentage_coverage more df = Ok q' /\
    (q <= q')%Q.
Proof.
  intros Hne Hsub. pose proof (segments_nonempty df Hne) as Hlen.
  unfold metrics.percentage_coverage.
  rewrite (proj2 (Nat.eqb_neq _ _) Hlen).
  eexists _, _. split; [reflexivity|]. split; [reflexivity|].
  apply percentage_le; [|exact Hlen].
  apply unique_length_le. now apply selected_segments_incl.
Qed.

End CoverageOrder.

(** Two selection lists with the same vehicles, in whatever order and
    multiplicity, get the same result, on every table. *)
Theorem percentage_coverage_same_vehicles (df : dataframe) (selected other : list Z) :
  (forall v, v ∈ selected <-> v ∈ other) ->
  metrics.percentage_coverage selected df = metrics.percentage_coverage other df.
Proof.
  intros Hsame. unfold metrics.percentage_coverage.
  replace (filter (fun r => py.isin (vehicle_id r) selected = true) df)
    with (filter (fun r => py.isin (vehicle_id r) other = true) df);
    [reflexivity|].
  apply list_filter_iff. intros r. unfold py.isin.
  rewrite !bool_decide_eq_true. symmetry. apply Hsame.
Qed.

Lemma percentage_coverage_range_witness :
  exists q, metrics.percentage_coverage [8] tie_table = Ok q /\ (0 <= q <= 100)%Q.
Proof. apply percentage_coverage_range. discriminate. Defined.

Lemma percentage_coverage_monotone_witness :
  exists q q',
    metrics.percentage_coverage [8] tie_table = Ok q /\
    metrics.percentage_coverage [1; 8] tie_table = Ok q' /\
    (q <= q')%Q.
Proof.
  apply percentage_coverage_monotone; [discriminate|].
  intros v Hv. apply list_elem_of_singleton in Hv as ->.
  rewrite !elem_of_cons. tauto.
Defined.

Lemma percentage_coverage_same_vehicles_witness :
  metrics.percentage_coverage [8; 1; 8] tie_table
  = metrics.percentage_coverage [1; 8] tie_table.
Proof.
  apply percentage_coverage_same_vehicles. intros v.
  rewrite !elem_of_cons, elem_of_nil. tauto.
Defined.

(** ** VehicleSelector.test without test data *)

Lemma init_ok_inv registry k (df : dataframe) split metric self :
  VehicleSelector.init registry k df split metric = Ok self ->
  exists f,
    VehicleSelector.decide_metric_function registry metric = Ok f /\
    self = {| VehicleSelector.num_to_select := k;
              VehicleSelector.train_test_split_timestamp := split;
              VehicleSelector.df := df;
              VehicleSelector.df_train :=
                filter (fun r => temporal_id r <= split) df;
              VehicleSelector.df_test :=
                filter (fun r => temporal_id r > split) df;
              VehicleSelector.coverage_metric_function := f |}.
Proof.
  unfold VehicleSelector.init. destruct (_ <? k); [discriminate|]. simpl.
  destruct (VehicleSelector.decide_metric_function registry metric) as [f|e];
    simpl; [|discriminate].
  intros [= <-]. exists f. split; reflexivity.
Qed.

(** With the default metric, [test] raises [ZeroDivisionError] exactly
    when no row of the dataframe lies after the split timestamp (the test
    partition is empty); otherwise it returns the selection with its
    coverage on the rows after the split timestamp. *)
Theorem test_needs_test_data k (df : dataframe) split self (selected : list Z) :
  VehicleSelector.init metrics.METRICS_LIST k df split
    (VehicleSelector.metric_name "percentage_coverage") = Ok self ->
  ((forall r, r ∈ df -> temporal_id r <= split) ->
   VehicleSelector.test self selected = Raise ZeroDivisionError) /\
  ((exists r, r ∈ df /\ split < temporal_id r) ->
   exists q,
     VehicleSelector.test self selected = Ok (selected, q) /\
     metrics.percentage_coverage selected
       (filter (fun r => temporal_id r > split) df) = Ok q).
Proof.
  intros Hinit. apply init_ok_inv in Hinit as (f & Hmetric & ->).
  change (VehicleSelector.decide_metric_function metrics.METRICS_LIST
            (VehicleSelector.metric_name "percentage_coverage"))
    with (Ok metrics.percentage_coverage) in Hmetric.
  injection Hmetric as <-.
  unfold VehicleSelector.test.
  cbn [VehicleSelector.coverage_metric_function VehicleSelector.df_test].
  split.
  - intros Hall.
    rewrite (filter_none (fun r => temporal_id r > split)); [reflexivity|].
    apply Forall_forall. intros r Hr. specialize (Hall r Hr). lia.
  - intros (r & Hr & Hlt).
    assert (Hne : filter (fun r => temporal_id r > split) df <> []).
    { intros Hempty.
      assert (Hin : r ∈ filter (fun r => temporal_id r > split) df)
        by (apply list_elem_of_filter; split; [lia | assumption]).
      rewrite Hempty in Hin. now apply elem_of_nil in Hin. }
    apply segments_nonempty, Nat.eqb_neq in Hne.
    unfold metrics.percentage_coverage. rewrite Hne.
    eexists. split; reflexivity.
Qed.

Lemma test_needs_test_data_witness :
  (exists self,
     VehicleSelector.init metrics.METRICS_LIST 2 tie_table 0
       (VehicleSelector.metric_name "percentage_coverage") = Ok self /\
     VehicleSelector.test self [2; 8] = Raise ZeroDivisionError) /\
  (exists self q,
     VehicleSelector.init metrics.METRICS_LIST 2 tie_table (-1)
       (VehicleSelector.metric_name "percentage_coverage") = Ok self /\
     VehicleSelector.test self [2; 8] = Ok ([2; 8], q)).
Proof.
  split.
  - eexists. split; [reflexivity|].
    apply (test_needs_test_data 2 tie_table 0 _ [2; 8] eq_refl).
    intros r Hr. unfold tie_table in Hr.
    rewrite !elem_of_cons, elem_of_nil in Hr.
    destruct Hr as [->|[->|[->|[->|[]]]]]; simpl; lia.
  - destruct (proj2 (test_needs_test_data 2 tie_table (-1) _ [2; 8] eq_refl))
      as (q & Htest & _).
    + exists (covers 2 "a"). split; [left | simpl; lia].
    + eexists _, q. split; [reflexivity | exact Htest].
Defined.

(** ** GreedyVehicleSelector: what the selection keeps true *)

Section GreedyInvariant.

Import GreedyVehicleSelector.

Context {S : Type} {total : py.PySet S}.

Implicit Types (df : dataframe) (k i : Z) (st : state S) (n : nat) (v w : Z)
  (steps : list Z) (value_counts_order : list Z -> list Z).

Lemma coverage_of_snoc df (vehicles : list Z) v :
  coverage_of (vehicles ++ [v]) df
  = coverage_of vehicles df
    ∪ list_to_set (map spatiotemporal_segment (rows_of v df)).
Proof.
  unfold coverage_of, rows_of. apply set_eq. intros s.
  rewrite elem_of_union, !elem_of_list_to_set, !list_elem_of_In, !in_map_iff.
  split.
  - intros (r & Hs & Hr). apply list_elem_of_In, list_elem_of_filter in Hr
      as [[Hv|Hv%list_elem_of_singleton]%elem_of_app Hr].
    + left. exists r. split; [exact Hs|].
      apply list_elem_of_In, list_elem_of_filter. now split.
    + right. exists r. split; [exact Hs|].
      apply list_elem_of_In, list_elem_of_filter. now split.
  - intros [(r & Hs & Hr)|(r & Hs & Hr)]; exists r; (split; [exact Hs|]);
      apply list_elem_of_In, list_elem_of_filter in Hr as [Hv Hr];
      apply list_elem_of_In, list_elem_of_filter; (split; [|exact Hr]);
      apply elem_of_app; [now left | right; now apply list_elem_of_singleton].
Qed.

Lemma rows_of_remaining df (vehicles : list Z) v :
  v ∉ vehicles ->
  rows_of v (filter (fun r => vehicle_id r ∉ vehicles) df) = rows_of v df.
Proof.
  intros Hv. unfold rows_of. rewrite list_filter_filter.
  apply list_filter_iff. intros r. split; [tauto|].
  intros Hr. split; [exact Hr | now rewrite Hr].
Qed.

Lemma size_list_to_set_le (l : list string) :
  (size (list_to_set l : gset string) <= length l)%nat.
Proof.
  induction l as [|x l IH]; [now rewrite list_to_set_nil, size_empty|].
  rewrite list_to_set_cons. cbn [length].
  pose proof (size_union_alt ({[x]} : gset string) (list_to_set l)) as Hsize.
  rewrite size_singleton in Hsize.
  assert (Hrest : (size (list_to_set l ∖ {[x]} : gset string)
                   <= size (list_to_set l : gset string))%nat).
  { apply subseteq_size. intros y Hy. apply elem_of_difference in Hy. tauto. }
  lia.
Qed.

Lemma invariant_first_pick value_counts_order df n st0 :
  first_pick S value_counts_order df = Ok (n, st0) ->
  selection_invariant df st0 /\
  n = py.len (py.set_of (py.unique (map vehicle_id df)) : S) /\
  exists v, current_vehicles st0 = [v] /\
            v ∈ value_counts_order (map vehicle_id df) /\
            total_vehicles st0
            = py.isub (py.set_of (py.unique (map vehicle_id df))) v.
Proof.
  intros Hfirst.
  destruct (first_pick_first_max _ _ _ _ Hfirst)
    as (before & v & after & Horder & Hv & _).
  unfold first_pick in Hfirst.
  destruct (py.max snd (stats value_counts_order df)) as [item|e];
    [|discriminate].
  cbn [mbind result_bind] in Hfirst. injection Hfirst as <- <-.
  cbn [current_vehicles] in Hv. injection Hv as Hv.
  assert (Hrows : coverage_of [v] df
                  = list_to_set (map spatiotemporal_segment (rows_of v df))).
  { unfold coverage_of, rows_of. do 2 f_equal.
    apply list_filter_iff. intros r. rewrite list_elem_of_singleton. tauto. }
  split; [|split; [reflexivity|]].
  - unfold selection_invariant, last_count.
    cbn [current_vehicles df_train current_coverage current_count tl length
         List.last]. rewrite Hv.
    split; [discriminate|]. split; [apply NoDup_singleton|].
    split; [|split; [|split; [|split; [lia | constructor]]]].
    + apply list_filter_iff. intros r. rewrite list_elem_of_singleton. tauto.
    + now rewrite Hrows.
    + rewrite Hrows. apply size_list_to_set_le.
  - exists v. rewrite Hv. split; [reflexivity|]. split; [|reflexivity].
    rewrite Horder. apply elem_of_app. right. left.
Qed.

(** A vehicle whose union count exceeds the last count has rows left:
    it is a vehicle of the table that was not selected before. *)
Lemma gain_is_fresh df st v :
  selection_invariant df st ->
  (last_count st < union_count st v)%nat ->
  (v ∉ current_vehicles st) /\ v ∈ map vehicle_id df.
Proof.
  intros (_ & _ & Hdf & Hcov & Hsize & _) Hgain.
  unfold union_count, new_count, new_coverage in Hgain.
  destruct (rows_of v (df_train st)) as [|r rows] eqn:Hrows.
  - cbn [map] in Hgain.
    rewrite list_to_set_nil, (right_id_L ∅ (∪)), Hcov in Hgain. lia.
  - assert (Hr : r ∈ rows_of v (df_train st)) by (rewrite Hrows; left).
    unfold rows_of in Hr. apply list_elem_of_filter in Hr as [Hv Hr].
    rewrite Hdf in Hr. apply list_elem_of_filter in Hr as [Hfresh Hr].
    rewrite Hv in Hfresh. split; [exact Hfresh|].
    rewrite <- Hv. now apply list_elem_of_fmap_2.
Qed.

Lemma invariant_iteration df st i st' :
  selection_invariant df st ->
  iteration st i = Some st' ->
  selection_invariant df st' /\
  exists v, current_vehicles st' = current_vehicles st ++ [v] /\
            v ∈ map vehicle_id df /\
            total_vehicles st' = py.isub (total_vehicles st) v.
Proof.
  intros Hinv Hit.
  apply iteration_some in Hit
    as (before & v & after & Hsplit & Hpos & -> & Hgain & _).
  destruct (gain_is_fresh df st v Hinv Hgain) as [Hfresh Hv].
  destruct Hinv as (Hne & Hnodup & Hdf & Hcov & Hsize & Hcount & Hlater).
  assert (Hunion : new_coverage (df_train st) (current_coverage st) v
                   = coverage_of (current_vehicles st ++ [v]) df).
  { unfold new_coverage. rewrite Hcov, Hdf, rows_of_remaining by assumption.
    now rewrite coverage_of_snoc. }
  assert (Hlast : last_count
                    {| current_vehicles := current_vehicles st ++ [v];
                       current_coverage :=
                         elements (new_coverage (df_train st)
                                     (current_coverage st) v);
                       current_count := current_count st ++ [union_count st v];
                       iteration_count := iteration_count st ++ [i];
                       df_train := rows_not_of v (df_train st);
                       total_vehicles := py.isub (total_vehicles st) v |}
                  = size (coverage_of (current_vehicles st ++ [v]) df)).
  { unfold last_count. cbn [current_count].
    rewrite last_last. unfold union_count, new_count. now rewrite Hunion. }
  split; [|exists v; split; [reflexivity|]; split; [exact Hv | reflexivity]].
  unfold selection_invariant. rewrite Hlast.
  cbn [current_vehicles df_train current_coverage].
  split; [intros H; now apply app_eq_nil in H as [_ H]|].
  split.
  { apply NoDup_app. split; [exact Hnodup|]. split; [|apply NoDup_singleton].
    intros w Hw Hw'%list_elem_of_singleton. now subst w. }
  split.
  { unfold rows_not_of. rewrite Hdf, list_filter_filter.
    apply list_filter_iff. intros r.
    rewrite elem_of_app, list_elem_of_singleton. tauto. }
  split; [now rewrite list_to_set_elements_L|].
  split; [lia|]. split; [reflexivity|].
  destruct (current_vehicles st) as [|first others]; [congruence|].
  cbn [tl app]. cbn [tl] in Hlater. apply Forall_app. split; [exact Hlater|].
  now constructor.
Qed.

Lemma invariant_loop df n steps : forall st,
  selection_invariant df st ->
  selection_invariant df (loop n steps st) /\
  forall v, v ∈ current_vehicles (loop n steps st) ->
            v ∈ current_vehicles st \/ v ∈ map vehicle_id df.
Proof.
  induction steps as [|i steps IH]; intros st Hinv; simpl; [auto|].
  destruct (i <=? Z.of_nat n); [|now apply IH].
  destruct (iteration st i) as [st'|] eqn:Hit; [|auto].
  destruct (invariant_iteration _ _ _ _ Hinv Hit)
    as (Hinv' & v & Hcv & Hv & _).
  destruct (IH st' Hinv') as [Hfinal Hfrom]. split; [exact Hfinal|].
  intros w Hw. apply Hfrom in Hw as [Hw|Hw]; [|now right].
  rewrite Hcv in Hw. apply elem_of_app in Hw as [Hw|Hw%list_elem_of_singleton];
    [now left | right; now subst w].
Qed.

(** When iteration visits the elements of the set and nothing else, the
    set holds, at every step, the vehicles that it held at first and
    that are not selected. *)
Lemma pool_loop `{!py.PySetLaws S} (pool0 : S) df n steps : forall st,
  selection_invariant df st ->
  (forall w, w ∈ py.iter (total_vehicles st) <->
             w ∈ py.iter pool0 /\ w ∉ current_vehicles st) ->
  forall w, w ∈ py.iter (total_vehicles (loop n steps st)) <->
            w ∈ py.iter pool0 /\ w ∉ current_vehicles (loop n steps st).
Proof.
  induction steps as [|i steps IH]; intros st Hinv Hpool; simpl; [exact Hpool|].
  destruct (i <=? Z.of_nat n); [|now apply IH].
  destruct (iteration st i) as [st'|] eqn:Hit; [|exact Hpool].
  destruct (invariant_iteration _ _ _ _ Hinv Hit)
    as (Hinv' & v & Hcv & _ & Htotal).
  apply IH; [exact Hinv'|]. intros w.
  rewrite Htotal, Hcv, py.elem_of_isub, Hpool, elem_of_app,
    list_elem_of_singleton. tauto.
Qed.

Lemma greedy_ok_inv value_counts_order df k selected coverage counts
    iterations :
  max_coverage_greedy_logic S value_counts_order df k
  = Ok (selected, coverage, counts, iterations) ->
  exists n st0,
    first_pick S value_counts_order df = Ok (n, st0) /\
    selected = current_vehicles (loop n (py.range 1 k) st0) /\
    coverage = current_coverage (loop n (py.range 1 k) st0) /\
    counts = current_count (loop n (py.range 1 k) st0) /\
    iterations = iteration_count (loop n (py.range 1 k) st0).
Proof.
  unfold max_coverage_greedy_logic.
  destruct (first_pick S value_counts_order df) as [[n st0]|e];
    [|discriminate].
  cbn [mbind result_bind]. intros [= <- <- <- <-]. now exists n, st0.
Qed.

Lemma loop_full_or_broken n steps : forall st,
  Forall (fun i => i <= Z.of_nat n) steps ->
  length (current_vehicles (loop n steps st))
  = (length (current_vehicles st) + length steps)%nat \/
  forall j, iteration (loop n steps st) j = None.
Proof.
  induction steps as [|i steps IH]; intros st Hsteps; simpl; [left; lia|].
  apply Forall_cons in Hsteps as [Hi Hsteps].
  apply Z.leb_le in Hi. rewrite Hi.
  destruct (iteration st i) as [st'|] eqn:Hit.
  - destruct (IH st' Hsteps) as [Hlen|Hbroken]; [left | now right].
    apply iteration_some in Hit as (_ & v & _ & _ & _ & -> & _).
    rewrite Hlen. cbn [current_vehicles]. rewrite length_app. simpl. lia.
  - right. intros j. now apply iteration_none_any with i.
Qed.

Lemma broken_is_exhausted st j :
  Forall (fun v => -1 < v) (py.iter (total_vehicles st)) ->
  iteration st j = None -> exhausted st.
Proof.
  intros Hpos Hnone. unfold iteration, best_candidate in Hnone.
  destruct (scan_pool (df_train st) (current_coverage st)
              (py.iter (total_vehicles st))
              (-1, [], last_count st))
    as [[_ Hall]|(before & v & after & Hpool & Hbest & _)].
  - exact Hall.
  - rewrite Hbest in Hnone. rewrite Forall_forall in Hpos.
    assert (Hv : -1 < v)
      by (apply Hpos; rewrite Hpool; apply elem_of_app; right; left).
    apply Z.ltb_lt in Hv. rewrite Hv in Hnone. discriminate.
Qed.

End GreedyInvariant.

(** The set of CPython iterates over its elements: the keys of the table,
    which are the elements of the list without those taken out. *)
Section CPythonSet.

Lemma keys_resized (so : py.table) : py.keys (py.resized so) = py.keys so.
Proof. reflexivity. Qed.

Lemma keys_set_add_key (so : py.table) (key v : Z) :
  v ∈ py.keys (py.set_add_key so key) <-> v ∈ py.keys so \/ v = key.
Proof.
  unfold py.set_add_key. destruct (bool_decide_reflect (key ∈ py.keys so)).
  - split; [now left|]. now intros [?| ->].
  - match goal with
    | |- context [if ?c then _ else _] => destruct c
    end; cbn [py.keys py.resized py.set_table_resize];
      rewrite elem_of_app, list_elem_of_singleton; tauto.
Qed.

Lemma keys_set_of (l : list Z) : forall (so : py.table) (v : Z),
  v ∈ py.keys (fold_left py.set_add_key l so) <-> v ∈ py.keys so \/ v ∈ l.
Proof.
  induction l as [|x l IH]; intros so v; cbn [fold_left].
  - rewrite elem_of_nil. tauto.
  - rewrite IH, keys_set_add_key, elem_of_cons. tauto.
Qed.

Lemma keys_set_difference_update (so : py.table) (key v : Z) :
  v ∈ py.keys (py.set_difference_update so key) <->
  v ∈ py.keys so /\ v <> key.
Proof.
  unfold py.set_difference_update.
  match goal with
  | |- context [if ?c then _ else _] => destruct c
  end; cbn [py.keys py.resized py.set_table_resize];
    rewrite list_elem_of_filter; tauto.
Qed.

Lemma elem_of_set_next (so : py.table) (v : Z) :
  v ∈ py.set_next so <-> v ∈ py.keys so.
Proof. unfold py.set_next. now rewrite sort_by_Permutation. Qed.

#[global] Instance cpython_laws : py.PySetLaws py.table.
Proof.
  split.
  - intros l v. cbn [py.iter py.set_of py.cpython].
    rewrite elem_of_set_next, keys_set_of. cbn [py.keys].
    rewrite elem_of_nil. tauto.
  - intros so key w. cbn [py.iter py.isub py.cpython].
    rewrite !elem_of_set_next. apply keys_set_difference_update.
Qed.

End CPythonSet.

Section GreedyGuarantees.

Import GreedyVehicleSelector.

Context {S : Type} {total : py.PySet S}.
Variable value_counts_order : list Z -> list Z.

Implicit Types (df : dataframe) (k i : Z) (st : state S) (n : nat) (v w : Z)
  (selected steps : list Z) (coverage : list string) (counts : list nat).

Local Abbreviation greedy :=
  (max_coverage_greedy_logic S value_counts_order).

Lemma greedy_invariant df k selected coverage counts iterations :
  greedy df k = Ok (selected, coverage, counts, iterations) ->
  exists n st0,
    first_pick S value_counts_order df = Ok (n, st0) /\
    n = py.len (py.set_of (py.unique (map vehicle_id df)) : S) /\
    (exists v, current_vehicles st0 = [v] /\
               v ∈ value_counts_order (map vehicle_id df) /\
               total_vehicles st0
               = py.isub (py.set_of (py.unique (map vehicle_id df))) v) /\
    selection_invariant df st0 /\
    let final := loop n (py.range 1 k) st0 in
    selected = current_vehicles final /\ coverage = current_coverage final /\
    counts = current_count final /\
    selection_invariant df final /\
    forall v, v ∈ selected ->
      v ∈ current_vehicles st0 \/ v ∈ map vehicle_id df.
Proof.
  intros Hrun. apply greedy_ok_inv in Hrun
    as (n & st0 & Hfirst & -> & -> & -> & _).
  destruct (invariant_first_pick _ _ _ _ Hfirst) as (Hinv & Hn & Hv).
  destruct (invariant_loop _ n (py.range 1 k) st0 Hinv) as [Hfinal Hfrom].
  exists n, st0. split; [exact Hfirst|]. split; [exact Hn|].
  split; [exact Hv|]. split; [exact Hinv|]. cbv zeta.
  do 3 (split; [reflexivity|]).
  split; [exact Hfinal | exact Hfrom].
Qed.

(** The selected vehicles are pairwise distinct, and each of them is a
    vehicle of the train table, when [value_counts()] lists vehicles of
    the table only; this holds whatever the set iterates over. *)
Theorem greedy_selects_distinct_vehicles df k selected coverage counts iterations :
  max_coverage_greedy_logic S value_counts_order df k
  = Ok (selected, coverage, counts, iterations) ->
  value_counts_order (map vehicle_id df) ⊆ map vehicle_id df ->
  NoDup selected /\ selected ⊆ map vehicle_id df.
Proof.
  intros Hrun Hvc. apply greedy_invariant in Hrun
    as (n & st0 & _ & _ & (first & Hfirst & Hin & _) & _ & Hsel & _ & _ & Hinv
        & Hfrom).
  destruct Hinv as (_ & Hnodup & _). rewrite <- Hsel in Hnodup.
  split; [exact Hnodup|]. intros v Hv. apply Hfrom in Hv as [Hv|Hv].
  - rewrite Hfirst in Hv. apply list_elem_of_singleton in Hv as ->. now apply Hvc.
  - exact Hv.
Qed.

(** The coverage returned is exactly the set of segments that the
    selected vehicles cover in the train table; from the second pick on,
    the last recorded count is the size of that set. *)
Theorem greedy_coverage_is_union df k selected coverage counts iterations :
  greedy df k = Ok (selected, coverage, counts, iterations) ->
  list_to_set coverage = coverage_of selected df /\
  ((2 <= length selected)%nat ->
   List.last counts 0%nat = size (coverage_of selected df)).
Proof.
  intros Hrun. apply greedy_invariant in Hrun
    as (n & st0 & _ & _ & _ & _ & -> & -> & -> & Hinv & _).
  destruct Hinv as (_ & _ & _ & Hcov & _ & Hcount & _). split; assumption.
Qed.

(** The selection has at least one vehicle and at most [max(1, k)], with
    one recorded count per vehicle: a request for zero or a negative
    number of vehicles still returns one. *)
Theorem greedy_selection_size df k selected coverage counts iterations :
  greedy df k = Ok (selected, coverage, counts, iterations) ->
  1 <= Z.of_nat (length selected) <= Z.max 1 k /\
  length counts = length selected.
Proof.
  intros Hrun. apply greedy_ok_inv in Hrun
    as (n & st0 & Hfirst & -> & _ & -> & _).
  destruct (invariant_first_pick _ _ _ _ Hfirst)
    as (Hinv & _ & first & Hcv & _).
  assert (Hrec : recorded st0).
  { unfold first_pick in Hfirst.
    destruct (py.max snd (stats value_counts_order df)); [|discriminate].
    cbn [mbind result_bind] in Hfirst. injection Hfirst as _ <-.
    repeat split; cbn; [discriminate | repeat constructor]. }
  destruct (loop_recorded n (py.range 1 k) st0 Hrec) as (_ & _ & Hlen).
  destruct (invariant_loop _ n (py.range 1 k) st0 Hinv) as [Hfinal _].
  destruct Hfinal as (Hne & _).
  pose proof (loop_length n (py.range 1 k) st0) as Hmax.
  rewrite Hcv in Hmax. unfold py.range in Hmax at 2.
  rewrite length_map, length_seq in Hmax. simpl in Hmax.
  split; [|exact Hlen].
  destruct (current_vehicles (loop n (py.range 1 k) st0)); [congruence|].
  simpl in *. lia.
Qed.

(** A vehicle with a negative id can only be the first pick: every later
    pick is greater than -1, the value that marks the absence of a
    candidate. *)
Theorem greedy_later_picks_above_sentinel df k selected coverage counts iterations :
  max_coverage_greedy_logic S value_counts_order df k
  = Ok (selected, coverage, counts, iterations) ->
  Forall (fun v => -1 < v) (tl selected).
Proof.
  intros Hrun. apply greedy_invariant in Hrun
    as (n & st0 & _ & _ & _ & _ & -> & _ & _ & Hinv & _).
  destruct Hinv as (_ & _ & _ & _ & _ & _ & Hlater).
  eapply Forall_impl; [exact Hlater|]. now intros v [Hv _].
Qed.

(** The selection does not stop while a remaining vehicle adds coverage.
    For a set that iterates over its elements and nothing else: when all
    its vehicle ids are non-negative and [k] is at most the number of
    vehicles plus one, a selection of fewer than [k] vehicles leaves no
    vehicle whose segments would raise the union above the last recorded
    count. *)
Theorem greedy_stops_only_when_exhausted `{!py.PySetLaws S}
    df k selected coverage counts iterations :
  greedy df k = Ok (selected, coverage, counts, iterations) ->
  let vehicles : S := py.set_of (py.unique (map vehicle_id df)) in
  Forall (fun v => 0 <= v) (py.iter vehicles) ->
  k - 1 <= Z.of_nat (py.len vehicles) ->
  Z.of_nat (length selected) < k ->
  forall w, w ∈ py.iter vehicles -> w ∉ selected ->
    (size (coverage_of (selected ++ [w]) df) <= List.last counts 0)%nat.
Proof.
  intros Hrun pool0 Hpos Hk Hshort w Hw Hfresh.
  apply greedy_invariant in Hrun
    as (n & st0 & _ & -> & (first & Hfirst & _ & Htotal) & Hinv0 & Hsel & _
        & Hcounts & Hinv & _).
  cbv zeta in Hsel, Hcounts, Hinv. fold pool0 in Htotal, Hsel, Hcounts, Hinv.
  set (final := loop (py.len pool0) (py.range 1 k) st0) in *.
  assert (Hsteps : Forall (fun i => i <= Z.of_nat (py.len pool0)) (py.range 1 k)).
  { apply Forall_forall. intros i Hi%list_elem_of_In. unfold py.range in Hi.
    apply in_map_iff in Hi as (x & <- & Hx%in_seq). lia. }
  destruct (loop_full_or_broken (py.len pool0) (py.range 1 k) st0 Hsteps)
    as [Hfull|Hbroken].
  { fold final in Hfull. rewrite <- Hsel, Hfirst in Hfull.
    unfold py.range in Hfull. rewrite length_map, length_seq in Hfull.
    simpl in Hfull. lia. }
  fold final in Hbroken.
  assert (Hpool : forall x, x ∈ py.iter (total_vehicles final) <->
                            x ∈ py.iter pool0 /\ x ∉ current_vehicles final).
  { apply pool_loop with df; [exact Hinv0|]. intros x.
    rewrite Htotal, Hfirst, py.elem_of_isub, list_elem_of_singleton. tauto. }
  destruct Hinv as (_ & _ & Hdf & Hcov & _).
  assert (Hexhausted : exhausted final).
  { apply broken_is_exhausted with 0; [|apply Hbroken].
    apply Forall_forall. intros v [Hv _]%Hpool.
    rewrite Forall_forall in Hpos. specialize (Hpos v Hv). lia. }
  specialize (Hexhausted w).
  rewrite <- Hsel in Hpool.
  specialize (Hexhausted ltac:(apply Hpool; split; assumption)).
  unfold union_count, new_count, new_coverage, last_count in Hexhausted.
  rewrite Hcov, Hdf, <- Hsel, rows_of_remaining, <- coverage_of_snoc in Hexhausted
    by assumption.
  now rewrite Hcounts.
Qed.

End GreedyGuarantees.

Lemma greedy_selects_distinct_vehicles_witness :
  NoDup [2; 8] /\ [2; 8] ⊆ map vehicle_id tie_table.
Proof.
  apply (greedy_selects_distinct_vehicles (total := py.cpython) py.value_counts_index
           tie_table 2 [2; 8] ["c"; "a"; "b"] [2; 3]%nat [0; 1] eq_refl).
  change ([2; 8; 1] ⊆ [2; 2; 8; 1]). intros v. rewrite !elem_of_cons. tauto.
Defined.

Lemma greedy_coverage_is_union_witness :
  list_to_set ["c"; "a"; "b"] = coverage_of [2; 8] tie_table /\
  ((2 <= length [2; 8])%nat ->
   List.last [2; 3]%nat 0%nat = size (coverage_of [2; 8] tie_table)).
Proof.
  apply (greedy_coverage_is_union (total := py.cpython) py.value_counts_index
           tie_table 2 [2; 8] ["c"; "a"; "b"] [2; 3]%nat [0; 1] eq_refl).
Defined.

Lemma greedy_selection_size_witness :
  1 <= Z.of_nat (length [2]) <= Z.max 1 (-3) /\
  length [2%nat] = length [2].
Proof.
  apply (greedy_selection_size (total := py.cpython) py.value_counts_index
           tie_table (-3) [2] ["a"; "b"] [2%nat] [0] eq_refl).
Defined.

Lemma greedy_later_picks_above_sentinel_witness :
  Forall (fun v => -1 < v) (tl [2; 8; 1]).
Proof.
  apply (greedy_later_picks_above_sentinel (total := py.cpython)
           py.value_counts_index
           tie_table 3 [2; 8; 1] ["c"; "a"; "b"; "d"] [2; 3; 4]%nat [0; 1; 2]
           eq_refl).
Defined.

Lemma greedy_stops_only_when_exhausted_witness :
  (size (coverage_of ([0%Z] ++ [1%Z])
           [covers 0%Z "a"; covers 0%Z "b"; covers 1%Z "a"])
   <= List.last [2%nat] 0)%nat.
Proof.
  apply (greedy_stops_only_when_exhausted (total := py.cpython) py.value_counts_index
           [covers 0 "a"; covers 0 "b"; covers 1 "a"] 2 [0] ["a"; "b"] [2%nat]
           [0] eq_refl).
  - change (Forall (fun v => 0 <= v) [0; 1]). repeat constructor; lia.
  - vm_compute. discriminate.
  - reflexivity.
  - change (1 ∈ [0; 1]). rewrite !elem_of_cons. tauto.
  - rewrite elem_of_cons, elem_of_nil. intros [H|[]]; discriminate H.
Defined.

(** ** DataLoader: the time segments and the update count *)

Section TimeSegments.

Implicit Types (g start stop ts : Z) (n i : nat) (segment : Z * Z)
  (segments : list (Z * Z)) (d x : DataLoader.doc) (docs : list DataLoader.doc).

Lemma segments_closed_form g stop n : forall start i segment,
  0 < g ->
  start + Z.of_nat n * g < stop <= start + (Z.of_nat n + 1) * g ->
  DataLoader.consecutive (py.arange_from start g (S n) ++ [stop]) !! i
  = Some segment ->
  (i <= n)%nat /\
  fst segment = start + Z.of_nat i * g /\
  snd segment = Z.min (start + (Z.of_nat i + 1) * g) stop.
Proof.
  induction n as [|n IH]; intros start i segment Hg Hn Hi.
  - unfold DataLoader.consecutive in Hi. simpl in Hi.
    destruct i as [|i]; [|discriminate]. injection Hi as <-. simpl.
    split; [lia|]. split; lia.
  - change (DataLoader.consecutive (py.arange_from start g (S (S n)) ++ [stop]))
      with ((start, start + g)
            :: DataLoader.consecutive (py.arange_from (start + g) g (S n) ++ [stop]))
      in Hi.
    destruct i as [|i].
    + injection Hi as <-. simpl. split; [lia|]. split; nia.
    + simpl in Hi. apply IH in Hi as (Hle & Hfst & Hsnd); [|lia|lia].
      split; [lia|]. rewrite Hfst, Hsnd. split; [lia|]. f_equal; lia.
Qed.

Lemma segments_length g stop n : forall start,
  length (DataLoader.consecutive (py.arange_from start g (S n) ++ [stop])) = S n.
Proof.
  induction n as [|n IH]; intros start; [reflexivity|].
  change (DataLoader.consecutive (py.arange_from start g (S (S n)) ++ [stop]))
    with ((start, start + g)
          :: DataLoader.consecutive (py.arange_from (start + g) g (S n) ++ [stop])).
  cbn [length]. f_equal. apply IH.
Qed.

(** With a positive granularity and an end after the start, the time
    segments are a chain: segment [i] starts at [start + i * granularity]
    and ends one granularity later, but not after the end; each segment
    is non-empty, consecutive segments share their boundary, the first
    starts at the start and the last ends at the end. *)
Theorem time_segments_chain self start stop :
  0 < DataLoader.temporal_granularity self -> start < stop ->
  let g := DataLoader.temporal_granularity self in
  exists segments,
    DataLoader.get_time_segments self start stop = Ok segments /\
    segments <> [] /\
    (forall i segment, segments !! i = Some segment ->
       fst segment = start + Z.of_nat i * g /\
       snd segment = Z.min (fst segment + g) stop /\
       fst segment < snd segment) /\
    (forall i segment next,
       segments !! i = Some segment -> segments !! S i = Some next ->
       snd segment = fst next) /\
    (forall segment, List.last segments (start, start) = segment ->
       snd segment = stop).
Proof.
  intros Hg Hlt g.
  destruct (stepping self start stop Hg Hlt) as (n & Hsegs & Hn). fold g in Hsegs, Hn.
  set (segments := DataLoader.consecutive _) in Hsegs.
  assert (Hform : forall i segment, segments !! i = Some segment ->
    (i <= n)%nat /\ fst segment = start + Z.of_nat i * g /\
    snd segment = Z.min (start + (Z.of_nat i + 1) * g) stop)
    by (intros i segment; now apply segments_closed_form).
  assert (Hlen : length segments = S n) by apply segments_length.
  exists segments. split; [exact Hsegs|].
  split; [intros H; now rewrite H in Hlen|].
  split; [|split].
  - intros i segment Hi. apply Hform in Hi as (Hle & Hfst & Hsnd).
    rewrite Hfst, Hsnd. split; [reflexivity|]. split; [f_equal; lia | nia].
  - intros i segment next Hi Hnext.
    apply Hform in Hi as (_ & _ & Hsnd). apply Hform in Hnext as (Hle & Hfst & _).
    rewrite Hsnd, Hfst. nia.
  - intros segment Hlast.
    destruct (segments !! n) as [final|] eqn:Hfinal;
      [|apply lookup_ge_None in Hfinal; lia].
    assert (segment = final) as ->.
    { rewrite <- Hlast. rewrite <- (take_drop_middle _ _ _ Hfinal).
      rewrite (drop_ge segments (S n)) by lia. now rewrite last_last. }
    apply Hform in Hfinal as (_ & _ & ->). lia.
Qed.

Lemma modifications_sum segment segments docs :
  sum_list (map (modifications (segment :: segments)) docs)
  = (length (filter (fun d => DataLoader.modified segment d = true) docs)
     + sum_list (map (modifications segments)
                     (map (DataLoader.set_temporal_id segment) docs)))%nat.
Proof.
  induction docs as [|d docs IH]; [reflexivity|].
  change (sum_list (map (modifications (segment :: segments)) (d :: docs)))
    with (((if DataLoader.modified segment d then 1 else 0)
           + modifications segments (DataLoader.set_temporal_id segment d))
          + sum_list (map (modifications (segment :: segments)) docs))%nat.
  change (sum_list (map (modifications segments)
                      (map (DataLoader.set_temporal_id segment) (d :: docs))))
    with (modifications segments (DataLoader.set_temporal_id segment d)
          + sum_list (map (modifications segments)
                          (map (DataLoader.set_temporal_id segment) docs)))%nat.
  rewrite IH, filter_cons.
  destruct (DataLoader.modified segment d).
  - rewrite decide_True by reflexivity. cbn [length]. lia.
  - rewrite decide_False by discriminate. lia.
Qed.

Lemma update_count segments : forall docs num_updated,
  snd (fold_left DataLoader.update_segment segments (docs, num_updated))
  = num_updated + Z.of_nat (sum_list (map (modifications segments) docs)).
Proof.
  induction segments as [|segment rest IH]; intros docs num_updated.
  - simpl. replace (sum_list (map (fun _ => 0%nat) docs)) with 0%nat; [lia|].
    induction docs as [|d docs IHdocs]; [reflexivity | exact IHdocs].
  - cbn [fold_left DataLoader.update_segment]. rewrite IH, modifications_sum. lia.
Qed.

Lemma modifications_no_match segments : forall d,
  filter (fun segment => DataLoader.within segment (DataLoader.timestamp d) = true)
         segments = [] ->
  modifications segments d = 0%nat.
Proof.
  induction segments as [|segment rest IH]; intros d Hnone; [reflexivity|].
  rewrite filter_cons in Hnone. destruct (decide _) as [|Hout]; [discriminate|].
  apply not_true_is_false in Hout. simpl.
  unfold DataLoader.modified, DataLoader.set_temporal_id, DataLoader.in_segment.
  rewrite Hout. simpl. now apply IH.
Qed.

Lemma modifications_one_match segments : forall d segment,
  filter (fun segment => DataLoader.within segment (DataLoader.timestamp d) = true)
         segments = [segment] ->
  modifications segments d
  = if bool_decide (DataLoader.temporal d = Some (fst segment)) then 0%nat
    else 1%nat.
Proof.
  induction segments as [|first rest IH]; intros d segment Hone; [discriminate|].
  rewrite filter_cons in Hone. simpl.
  unfold DataLoader.modified, DataLoader.in_segment.
  destruct (decide _) as [Hin|Hout].
  - injection Hone as -> Hrest. rewrite Hin. simpl.
    rewrite modifications_no_match.
    + now destruct (bool_decide _).
    + now rewrite set_temporal_id_timestamp.
  - apply not_true_is_false in Hout. rewrite Hout. simpl.
    unfold DataLoader.set_temporal_id, DataLoader.in_segment. rewrite Hout.
    now apply IH.
Qed.

Lemma update_run self d rest :
  0 < DataLoader.temporal_granularity self ->
  let g := DataLoader.temporal_granularity self in
  let min_ts := DataLoader.min_timestamp d rest in
  let stale :=
    filter (fun x => DataLoader.temporal x
                     <> Some (bucket_start min_ts g (DataLoader.timestamp x)))
           (d :: rest) in
  DataLoader.compute_temporal_id_and_update_db self (d :: rest)
  = Ok (map (bucketed min_ts g) (d :: rest),
        Z.of_nat (length stale), Z.of_nat (length stale) =? 0).
Proof.
  intros Hg g min_ts stale.
  set (max_ts := DataLoader.max_timestamp d rest).
  assert (Hrange : min_ts <= max_ts).
  { pose proof (timestamp_in_range d rest d ltac:(left)). subst min_ts max_ts. lia. }
  destruct (stepping self min_ts (max_ts + 1) Hg ltac:(lia)) as (n & Hsegs & Hn).
  fold g in Hsegs, Hn.
  set (segments := DataLoader.consecutive _) in *.
  assert (Hone : forall x, x ∈ d :: rest -> exists segment_end,
    filter (fun segment => DataLoader.within segment (DataLoader.timestamp x) = true)
           segments
    = [(bucket_start min_ts g (DataLoader.timestamp x), segment_end)]).
  { intros x Hx%timestamp_in_range. fold min_ts max_ts in Hx.
    apply segments_exactly_one; [assumption | assumption | lia]. }
  assert (Hdocs : map (DataLoader.classify segments) (d :: rest)
                  = map (bucketed min_ts g) (d :: rest)).
  { apply map_ext_in. intros x Hx%list_elem_of_In.
    destruct (Hone x Hx) as [segment_end Hseg].
    now rewrite (classify_one_match _ _ _ Hseg). }
  assert (Hcount : sum_list (map (modifications segments) (d :: rest))
                   = length stale).
  { subst stale. clear Hdocs.
    induction (d :: rest) as [|x docs IH]; [reflexivity|].
    cbn [map sum_list]. change (sum_list_with id ?l) with (sum_list l).
    rewrite IH by (intros y Hy; apply Hone; now right).
    destruct (Hone x ltac:(left)) as [segment_end Hseg].
    rewrite (modifications_one_match _ _ _ Hseg), filter_cons. cbn [fst].
    destruct (decide (DataLoader.temporal x <> _)) as [Hne|Heq].
    - rewrite bool_decide_eq_false_2 by assumption. reflexivity.
    - rewrite bool_decide_eq_true_2; [reflexivity|].
      destruct (decide (DataLoader.temporal x
                        = Some (bucket_start min_ts g (DataLoader.timestamp x))));
        tauto. }
  unfold DataLoader.compute_temporal_id_and_update_db.
  fold min_ts max_ts. rewrite Hsegs. cbn [mbind result_bind].
  pose proof (update_all_segments segments (d :: rest) 0) as Hfst.
  pose proof (update_count segments (d :: rest) 0) as Hsnd.
  destruct (fold_left DataLoader.update_segment segments (d :: rest, 0))
    as [docs' num_updated].
  cbn [fst snd] in Hfst, Hsnd. rewrite Hfst, Hsnd, Hdocs, Hcount. reflexivity.
Qed.

(** The number that [compute_temporal_id_and_update_db] returns, for a
    positive granularity, is the number of documents whose temporal id
    changes; so on a collection where no temporal id is set yet it is the
    number of documents, and no warning is issued. *)
Theorem temporal_update_count self d rest :
  0 < DataLoader.temporal_granularity self ->
  let g := DataLoader.temporal_granularity self in
  let min_ts := DataLoader.min_timestamp d rest in
  let stale :=
    filter (fun x => DataLoader.temporal x
                     <> Some (bucket_start min_ts g (DataLoader.timestamp x)))
           (d :: rest) in
  DataLoader.compute_temporal_id_and_update_db self (d :: rest)
  = Ok (map (bucketed min_ts g) (d :: rest),
        Z.of_nat (length stale), Z.of_nat (length stale) =? 0) /\
  (Forall (fun x => DataLoader.temporal x = None) (d :: rest) ->
   DataLoader.compute_temporal_id_and_update_db self (d :: rest)
   = Ok (map (bucketed min_ts g) (d :: rest),
         Z.of_nat (length (d :: rest)), false)).
Proof.
  intros Hg g min_ts stale.
  pose proof (update_run self d rest Hg) as Hrun. cbv zeta in Hrun.
  fold g min_ts stale in Hrun.
  split; [exact Hrun|].
  intros Hfresh. rewrite Hrun.
  replace stale with (d :: rest); [reflexivity|].
  subst stale. symmetry. apply filter_all.
  eapply Forall_impl; [exact Hfresh|]. intros x ->. discriminate.
Qed.

Lemma bucketed_timestamps min_ts g docs :
  map DataLoader.timestamp (map (bucketed min_ts g) docs)
  = map DataLoader.timestamp docs.
Proof. rewrite map_map. reflexivity. Qed.

(** Running [compute_temporal_id_and_update_db] again changes nothing:
    the second run leaves the collection of the first run as it is,
    returns 0 and issues the warning that nothing was updated. *)
Theorem temporal_ids_idempotent self docs docs' num_updated warned :
  0 < DataLoader.temporal_granularity self ->
  DataLoader.compute_temporal_id_and_update_db self docs
  = Ok (docs', num_updated, warned) ->
  DataLoader.compute_temporal_id_and_update_db self docs' = Ok (docs', 0, true).
Proof.
  intros Hg Hrun. destruct docs as [|d rest]; [discriminate|].
  pose proof (update_run self d rest Hg) as Hfirst. cbv zeta in Hfirst.
  rewrite Hfirst in Hrun. injection Hrun as <- _ _.
  set (g := DataLoader.temporal_granularity self).
  set (min_ts := DataLoader.min_timestamp d rest).
  cbn [map].
  pose proof (update_run self (bucketed min_ts g d)
                (map (bucketed min_ts g) rest) Hg) as Hsecond.
  cbv zeta in Hsecond. fold g in Hsecond.
  assert (Hmin : DataLoader.min_timestamp (bucketed min_ts g d)
                   (map (bucketed min_ts g) rest) = min_ts).
  { unfold DataLoader.min_timestamp. now rewrite bucketed_timestamps. }
  rewrite Hmin in Hsecond. rewrite Hsecond.
  rewrite filter_none.
  - do 3 f_equal. change (bucketed min_ts g d :: map (bucketed min_ts g) rest)
      with (map (bucketed min_ts g) (d :: rest)).
    rewrite map_map. apply map_ext. reflexivity.
  - apply Forall_forall. intros x Hx Hstale. apply Hstale.
    change (bucketed min_ts g d :: map (bucketed min_ts g) rest)
      with (map (bucketed min_ts g) (d :: rest)) in Hx.
    apply list_elem_of_In, in_map_iff in Hx as (y & <- & _). reflexivity.
Qed.

End TimeSegments.

Lemma time_segments_chain_witness :
  exists segments,
    DataLoader.get_time_segments (loader 100) 100 251 = Ok segments /\
    segments <> [] /\
    (forall i segment, segments !! i = Some segment ->
       fst segment = 100 + Z.of_nat i * 100 /\
       snd segment = Z.min (fst segment + 100) 251 /\
       fst segment < snd segment) /\
    (forall i segment next,
       segments !! i = Some segment -> segments !! S i = Some next ->
       snd segment = fst next) /\
    (forall segment, List.last segments (100, 100) = segment ->
       snd segment = 251).
Proof.
  apply (time_segments_chain (loader 100) 100 251); reflexivity.
Defined.

Lemma temporal_update_count_witness :
  DataLoader.compute_temporal_id_and_update_db (loader 100)
    [sample 0 100; sample 1 250]
  = Ok (map (bucketed 100 100) [sample 0 100; sample 1 250], 2, false).
Proof.
  apply (temporal_update_count (loader 100) (sample 0 100) [sample 1 250]).
  - reflexivity.
  - repeat constructor.
Defined.

Lemma temporal_ids_idempotent_witness :
  DataLoader.compute_temporal_id_and_update_db (loader 100)
    (map (bucketed 100 100) [sample 0 100; sample 1 250])
  = Ok (map (bucketed 100 100) [sample 0 100; sample 1 250], 0, true).
Proof.
  apply (temporal_ids_idempotent (loader 100) [sample 0 100; sample 1 250]
           _ 2 false); reflexivity.
Defined.

(** ** DataLoader.fetch_data_for_vehicle_selection: the incidence table *)

Section DecimalNames.

Lemma pretty_N_char_no_underscore (x : N) : pretty_N_char x <> "_"%char.
Proof. unfold pretty_N_char. repeat case_match; discriminate. Qed.

Lemma pretty_N_go_no_underscore (x : N) : forall s,
  "_"%char ∉ characters s -> "_"%char ∉ characters (pretty_N_go x s).
Proof.
  induction (N.lt_wf_0 x) as [x _ IH]. intros s Hs.
  destruct (N.eq_dec x 0%N) as [->|Hx]; [now rewrite pretty_N_go_0|].
  rewrite pretty_N_go_step by lia. apply IH.
  - apply N.div_lt; lia.
  - simpl. intros [Hc|Hin]%elem_of_cons; [|contradiction].
    symmetry in Hc. now apply pretty_N_char_no_underscore in Hc.
Qed.

Lemma pretty_N_no_underscore (x : N) : "_"%char ∉ characters (pretty x).
Proof.
  unfold pretty, pretty_N. destruct (decide (x = 0%N)).
  - simpl. intros [Hc|Hin]%elem_of_cons; [discriminate|].
    now apply elem_of_nil in Hin.
  - apply pretty_N_go_no_underscore. simpl. apply not_elem_of_nil.
Qed.

Lemma pretty_Z_no_underscore (z : Z) : "_"%char ∉ characters (pretty z).
Proof.
  destruct z as [|p|p]; unfold pretty, pretty_Z.
  - simpl. intros [Hc|Hin]%elem_of_cons; [discriminate|].
    now apply elem_of_nil in Hin.
  - apply pretty_N_no_underscore.
  - simpl. intros [Hc|Hin]%elem_of_cons; [discriminate|].
    now apply pretty_N_no_underscore in Hin.
Qed.

Lemma split_at_underscore (a : string) : forall a' b b',
  "_"%char ∉ characters a -> "_"%char ∉ characters a' ->
  a +:+ String "_"%char b = a' +:+ String "_"%char b' ->
  a = a' /\ b = b'.
Proof.
  induction a as [|c a IH]; intros [|c' a'] b b' Ha Ha' Heq; simpl in *.
  - now injection Heq as ->.
  - injection Heq as <- _. exfalso. apply Ha'. left.
  - injection Heq as -> _. exfalso. apply Ha. left.
  - injection Heq as <- Heq. apply IH in Heq as [-> ->]; [easy|..].
    + intros H. apply Ha. now right.
    + intros H. apply Ha'. now right.
Qed.

Lemma segment_name_eq (s t s' t' : Z) :
  fetch.segment_name s t = fetch.segment_name s' t' -> s = s' /\ t = t'.
Proof.
  unfold fetch.segment_name. intros Hname.
  change (pretty s +:+ String "_"%char (pretty t)
          = pretty s' +:+ String "_"%char (pretty t')) in Hname.
  apply split_at_underscore in Hname as [Hs Ht];
    [|apply pretty_Z_no_underscore..].
  split; [now apply (inj pretty) in Hs | now apply (inj pretty) in Ht].
Qed.

(** The name of a spatiotemporal segment determines its stratum and its
    time segment: two segments have the same name exactly when they have
    the same stratum id and the same temporal id. *)
Theorem segment_name_inj (s t s' t' : Z) :
  fetch.segment_name s t = fetch.segment_name s' t' <-> s = s' /\ t = t'.
Proof.
  split.
  - apply segment_name_eq.
  - intros [Hs Ht]. now rewrite Hs, Ht.
Qed.

End DecimalNames.

Section IncidenceTable.

Implicit Types (docs : list fetch.doc) (df : dataframe) (k : fetch.key)
  (keys : list fetch.key).

Lemma group_keys keys :
  map fst (fetch.group_sizes keys) ≡ₚ py.unique keys.
Proof.
  unfold fetch.group_sizes. rewrite map_map. simpl. rewrite map_id.
  apply sort_by_Permutation.
Qed.

Lemma to_row_key (group : fetch.key * nat) :
  row_key (fetch.to_row group) = fst group.
Proof. now destruct group as [[[v s] t] size]. Qed.

Lemma fetch_return_inv docs df :
  fetch.fetch_data_for_vehicle_selection docs = Return df ->
  df = map fetch.to_row (fetch.group_sizes (fetch.fetch_data docs)) /\
  fetch.fetch_data docs <> [].
Proof.
  unfold fetch.fetch_data_for_vehicle_selection.
  destruct (fetch.fetch_data docs) as [|k keys]; [discriminate|].
  simpl. intros [= <-]. split; [reflexivity | discriminate].
Qed.

Lemma row_keys docs df :
  fetch.fetch_data_for_vehicle_selection docs = Return df ->
  map row_key df ≡ₚ py.unique (fetch.fetch_data docs).
Proof.
  intros [-> _]%fetch_return_inv. rewrite map_map.
  rewrite (map_ext _ fst) by apply to_row_key. apply group_keys.
Qed.

Lemma occurrences_cons k x keys :
  fetch.occurrences k (x :: keys)
  = ((if decide (x = k) then 1 else 0) + fetch.occurrences k keys)%nat.
Proof.
  unfold fetch.occurrences. rewrite filter_cons.
  now destruct (decide (x = k)).
Qed.

Lemma occurrences_absent k keys : k ∉ keys -> fetch.occurrences k keys = 0%nat.
Proof.
  intros Hk. unfold fetch.occurrences. rewrite filter_none; [reflexivity|].
  apply Forall_forall. intros x Hx ->. contradiction.
Qed.

Lemma occurrences_present k keys : k ∈ keys -> (1 <= fetch.occurrences k keys)%nat.
Proof.
  induction keys as [|x keys IH]; intros Hk; [now apply elem_of_nil in Hk|].
  rewrite occurrences_cons. destruct (decide (x = k)); [lia|].
  apply elem_of_cons in Hk as [->|Hk]; [congruence|]. specialize (IH Hk). lia.
Qed.

Lemma sum_ext_in (f g : fetch.key -> nat) (l : list fetch.key) :
  (forall k, k ∈ l -> f k = g k) -> sum_list_with f l = sum_list_with g l.
Proof.
  induction l as [|y l IH]; intros Hext; [reflexivity|].
  cbn [sum_list_with]. rewrite (Hext y) by left.
  rewrite IH; [reflexivity|]. intros k Hk. apply Hext. now right.
Qed.

Lemma sum_without (g : fetch.key -> nat) (x : fetch.key) (u : list fetch.key) :
  NoDup u ->
  sum_list_with g u
  = ((if decide (x ∈ u) then g x else 0)
     + sum_list_with g (filter (fun y => y <> x) u))%nat.
Proof.
  induction 1 as [|y u Hy Hu IH].
  - rewrite filter_nil. now destruct (decide (x ∈ [])).
  - rewrite filter_cons. cbn [sum_list_with]. rewrite IH.
    destruct (decide (y <> x)) as [Hne|Heq].
    + cbn [sum_list_with].
      destruct (decide (x ∈ u)) as [Hin|Hout],
               (decide (x ∈ y :: u)) as [Hin'|Hout']; try lia.
      * exfalso. apply Hout'. now right.
      * exfalso. apply elem_of_cons in Hin' as [->|Hin']; [now apply Hne | easy].
    + assert (y = x) as -> by (destruct (decide (y = x)); tauto).
      destruct (decide (x ∈ u)) as [Hin|Hout],
               (decide (x ∈ x :: u)) as [Hin'|Hout']; try lia; try contradiction.
      exfalso. apply Hout'. left.
Qed.

Lemma occurrences_total keys :
  sum_list_with (fun k => fetch.occurrences k keys) (py.unique keys)
  = length keys.
Proof.
  induction keys as [|x keys IH]; [reflexivity|].
  cbn [py.unique sum_list_with length]. rewrite occurrences_cons.
  rewrite decide_True by reflexivity.
  rewrite (sum_ext_in _ (fun k => fetch.occurrences k keys)).
  - rewrite <- IH.
    rewrite (sum_without (fun k => fetch.occurrences k keys) x (py.unique keys))
      by apply unique_NoDup.
    destruct (decide (x ∈ py.unique keys)) as [Hin|Hout]; [lia|].
    rewrite occurrences_absent; [lia|]. now rewrite <- unique_elem_of.
  - intros k [Hk _]%list_elem_of_filter. rewrite occurrences_cons.
    now rewrite decide_False by congruence.
Qed.

Lemma fetch_row_form docs df r :
  fetch.fetch_data_for_vehicle_selection docs = Return df -> r ∈ df ->
  exists k, k ∈ fetch.fetch_data docs /\
            r = fetch.to_row (k, fetch.occurrences k (fetch.fetch_data docs)).
Proof.
  intros [-> _]%fetch_return_inv Hr.
  apply list_elem_of_In, in_map_iff in Hr as (group & <- & Hgroup).
  unfold fetch.group_sizes in Hgroup. apply in_map_iff in Hgroup as (k & <- & Hk).
  exists k. split; [|reflexivity].
  apply list_elem_of_In in Hk. rewrite sort_by_Permutation in Hk.
  apply unique_elem_of. exact Hk.
Qed.

(** The dataframe returned by [fetch_data_for_vehicle_selection] is an
    incidence table of the documents that have a stratum id and a
    temporal id: its rows have pairwise distinct (vehicle, stratum, time
    segment) groups, each group of such a document has its row, the
    count of a row is the number of documents of its group (at least 1),
    the counts add up to the number of those documents, and the segment
    of a row is named after its stratum id and temporal id. *)
Theorem fetch_incidence_table docs df :
  fetch.fetch_data_for_vehicle_selection docs = Return df ->
  NoDup (map row_key df) /\
  (forall k, k ∈ map row_key df <-> k ∈ fetch.fetch_data docs) /\
  (forall r, r ∈ df ->
     count r = Z.of_nat (fetch.occurrences (row_key r) (fetch.fetch_data docs)) /\
     1 <= count r /\
     spatiotemporal_segment r
     = fetch.segment_name (stratum_id r) (temporal_id r)) /\
  sum_list_with (fun r => Z.to_nat (count r)) df
  = length (fetch.fetch_data docs).
Proof.
  intros Hfetch. pose proof (row_keys docs df Hfetch) as Hkeys.
  pose proof (fetch_row_form docs df) as Hrow.
  pose proof Hfetch as [Hdf _]%fetch_return_inv.
  set (keys := fetch.fetch_data docs) in *.
  split; [rewrite Hkeys; apply unique_NoDup|].
  split; [intros k; now rewrite Hkeys, unique_elem_of|].
  split.
  - intros r Hr. destruct (Hrow r Hfetch Hr) as (k & Hk & ->).
    destruct k as [[v s] t].
    cbn [fetch.to_row count row_key vehicle_id stratum_id temporal_id
         spatiotemporal_segment].
    split; [reflexivity|].
    split; [|reflexivity]. apply occurrences_present in Hk. lia.
  - rewrite Hdf. unfold fetch.group_sizes.
    rewrite <- (occurrences_total keys).
    rewrite <- (sum_list_with_Permutation_proper _ _ _ (sort_by_Permutation fetch.key_leb (py.unique keys))).
    generalize (py.sort_by fetch.key_leb (py.unique keys)) as sorted.
    induction sorted as [|k sorted IH]; [reflexivity|].
    cbn [map sum_list_with]. rewrite IH. destruct k as [[v s] t].
    cbn [fetch.to_row count]. now rewrite Nat2Z.id.
Qed.

(** [fetch_data_for_vehicle_selection] raises its [ValueError] exactly
    when no document has both a stratum id and a temporal id, an empty
    collection included. *)
Theorem fetch_without_tagged_documents docs :
  fetch.fetch_data_for_vehicle_selection docs
  = Fail (raised.ValueError "The resultant dataframe does not have any data.")
  <-> forall d, d ∈ docs -> fetch.stratum d = None \/ fetch.temporal d = None.
Proof.
  unfold fetch.fetch_data_for_vehicle_selection, fetch.fetch_data. split.
  - destruct (omap fetch.projected docs) as [|k keys] eqn:Hkeys; [|discriminate].
    intros _ d Hd.
    destruct (fetch.projected d) as [k|] eqn:Hk.
    + assert (Hin : k ∈ omap fetch.projected docs)
        by (apply list_elem_of_omap; eauto).
      rewrite Hkeys in Hin. now apply elem_of_nil in Hin.
    + unfold fetch.projected in Hk.
      destruct (fetch.stratum d), (fetch.temporal d); auto; discriminate.
  - intros Hnone.
    replace (omap fetch.projected docs) with (@nil fetch.key); [reflexivity|].
    symmetry. apply elem_of_nil_inv. intros k (d & Hd & Hk)%list_elem_of_omap.
    unfold fetch.projected in Hk.
    destruct (Hnone d Hd) as [H|H]; rewrite H in Hk;
      [|destruct (fetch.stratum d)]; discriminate.
Qed.

Lemma filter_map_length {A B : Type} (f : A -> B) (P : B -> Prop)
    `{!forall y, Decision (P y)} (l : list A) :
  length (filter P (map f l)) = length (filter (fun x => P (f x)) l).
Proof.
  induction l as [|x l IH]; [reflexivity|].
  cbn [map]. rewrite !filter_cons.
  destruct (decide (P (f x))); cbn [length]; now rewrite IH.
Qed.

Lemma NoDup_map_on {A B : Type} (f : A -> B) (l : list A) :
  (forall x y, x ∈ l -> y ∈ l -> f x = f y -> x = y) ->
  NoDup l -> NoDup (map f l).
Proof.
  intros Hinj Hl. induction Hl as [|x l Hx Hl IH]; [constructor|].
  cbn [map]. constructor.
  - intros Hin. apply list_elem_of_In, in_map_iff in Hin as (y & Hy & Hin).
    apply list_elem_of_In in Hin.
    assert (y = x) by (apply Hinj; [now right | left | exact Hy]).
    now subst y.
  - apply IH. intros y z Hy Hz. apply Hinj; now right.
Qed.

Lemma NoDup_map_inv' {A B : Type} (f : A -> B) (l : list A) :
  NoDup (map f l) -> NoDup l.
Proof.
  induction l as [|x l IH]; [constructor|]. cbn [map].
  intros [Hx Hl]%NoDup_cons. constructor; [|now apply IH].
  intros Hin. apply Hx, list_elem_of_In, in_map, list_elem_of_In, Hin.
Qed.

Lemma loader_rows_distinct_segments docs df (P : row -> Prop)
    `{!forall r, Decision (P r)} (v : Z) :
  fetch.fetch_data_for_vehicle_selection docs = Return df ->
  NoDup (map spatiotemporal_segment (rows_of v (filter P df))).
Proof.
  intros Hfetch. apply NoDup_map_on.
  - intros r r' [Hv [_ Hr]%list_elem_of_filter]%list_elem_of_filter
      [Hv' [_ Hr']%list_elem_of_filter]%list_elem_of_filter Hseg.
    destruct (fetch_row_form docs df r Hfetch Hr) as ([[a s] t] & _ & ->).
    destruct (fetch_row_form docs df r' Hfetch Hr') as ([[a' s'] t'] & _ & ->).
    cbn [fetch.to_row vehicle_id spatiotemporal_segment] in Hv, Hv', Hseg.
    apply segment_name_eq in Hseg as [-> ->]. now subst a a'.
  - do 2 apply NoDup_filter. apply NoDup_map_inv' with row_key.
    rewrite (row_keys docs df Hfetch). apply unique_NoDup.
Qed.

(** In the dataframe that the loader builds, and in every part of it
    selected by a condition on the rows (such as the train and the test
    part), the rows of a vehicle are its segments: they have pairwise
    distinct segment names, so that the number of rows of a vehicle, which
    the greedy selection maximises in its first pick, is the number of
    segments that the vehicle covers. *)
Theorem fetch_rows_are_segments docs df (P : row -> Prop)
    `{!forall r, Decision (P r)} (v : Z) :
  fetch.fetch_data_for_vehicle_selection docs = Return df ->
  let table := filter P df in
  NoDup (map spatiotemporal_segment (rows_of v table)) /\
  py.count_occurrences v (map vehicle_id table) = size (coverage_of [v] table).
Proof.
  intros Hfetch table.
  pose proof (loader_rows_distinct_segments docs df P v Hfetch) as Hnodup.
  fold table in Hnodup. split; [exact Hnodup|].
  unfold coverage_of.
  replace (filter (fun r => vehicle_id r ∈ [v]) table) with (rows_of v table)
    by (apply list_filter_iff; intros r; now rewrite list_elem_of_singleton).
  rewrite size_list_to_set by exact Hnodup.
  rewrite length_map. unfold py.count_occurrences, rows_of.
  apply filter_map_length.
Qed.

End IncidenceTable.

Lemma fetch_incidence_table_witness :
  NoDup (map row_key tagged_table) /\
  (forall k, k ∈ map row_key tagged_table
             <-> k ∈ fetch.fetch_data tagged_documents) /\
  (forall r, r ∈ tagged_table ->
     count r = Z.of_nat (fetch.occurrences (row_key r)
                           (fetch.fetch_data tagged_documents)) /\
     1 <= count r /\
     spatiotemporal_segment r
     = fetch.segment_name (stratum_id r) (temporal_id r)) /\
  sum_list_with (fun r => Z.to_nat (count r)) tagged_table
  = length (fetch.fetch_data tagged_documents).
Proof. apply (fetch_incidence_table tagged_documents). reflexivity. Defined.

Lemma fetch_rows_are_segments_witness :
  NoDup (map spatiotemporal_segment
           (rows_of 3 (filter (fun r => temporal_id r <= 150) tagged_table))) /\
  py.count_occurrences 3
    (map vehicle_id (filter (fun r => temporal_id r <= 150) tagged_table))
  = size (coverage_of [3] (filter (fun r => temporal_id r <= 150) tagged_table)).
Proof.
  apply (fetch_rows_are_segments tagged_documents tagged_table
           (fun r => temporal_id r <= 150) 3).
  reflexivity.
Defined.

(** ** The greedy selection on a table of the loader *)

Section GreedyOnLoaderTable.

Import GreedyVehicleSelector.

Context {S : Type} {total : py.PySet S}.

Implicit Types (df : dataframe) (k i : Z) (st : state S) (n : nat) (v w : Z)
  (steps : list Z).

Lemma union_count_is_coverage df st v :
  selection_invariant df st -> (last_count st < union_count st v)%nat ->
  union_count st v = size (coverage_of (current_vehicles st ++ [v]) df).
Proof.
  intros Hinv Hgain.
  destruct (gain_is_fresh df st v Hinv Hgain) as [Hfresh _].
  destruct Hinv as (_ & _ & Hdf & Hcov & _).
  unfold union_count, new_count, new_coverage.
  rewrite Hcov, Hdf, rows_of_remaining by assumption.
  now rewrite coverage_of_snoc.
Qed.

Lemma iteration_recorded st i st' :
  recorded st -> iteration st i = Some st' -> recorded st'.
Proof.
  intros (Hne & Hsorted & Hlen) Hit.
  apply iteration_some in Hit as (_ & v & _ & _ & _ & -> & Hgain & _).
  repeat split; simpl.
  - intros H. now apply app_eq_nil in H as [_ H].
  - now apply Sorted_snoc.
  - rewrite !length_app. simpl. lia.
Qed.

Lemma counts_iteration df st i st' :
  selection_invariant df st -> recorded st ->
  counts_are_coverage df (current_vehicles st) (current_count st) ->
  iteration st i = Some st' ->
  counts_are_coverage df (current_vehicles st') (current_count st').
Proof.
  intros Hinv (_ & _ & Hlen) Hcounts Hit.
  pose proof Hit as Hsome.
  apply iteration_some in Hsome
    as (before & v & after & Hsplit & _ & -> & Hgain & _).
  cbn [current_vehicles current_count]. intros j c Hj.
  destruct (decide (j < length (current_count st))%nat) as [Hlt|Hge].
  - rewrite lookup_app_l in Hj by assumption.
    rewrite take_app_le by lia. now apply Hcounts.
  - rewrite lookup_app_r in Hj by lia.
    destruct (j - length (current_count st))%nat as [|m] eqn:Hm; [|discriminate].
    injection Hj as <-.
    rewrite take_ge by (rewrite length_app; simpl; lia).
    now apply union_count_is_coverage.
Qed.

Lemma counts_loop df n steps : forall st,
  selection_invariant df st -> recorded st ->
  counts_are_coverage df (current_vehicles st) (current_count st) ->
  counts_are_coverage df (current_vehicles (loop n steps st))
                      (current_count (loop n steps st)).
Proof.
  induction steps as [|i steps IH]; intros st Hinv Hrec Hcounts; [assumption|].
  simpl. destruct (i <=? Z.of_nat n); [|now apply IH].
  destruct (iteration st i) as [st'|] eqn:Hit; [|assumption].
  apply IH.
  - now destruct (invariant_iteration _ _ _ _ Hinv Hit).
  - now apply iteration_recorded with st i.
  - now apply counts_iteration with st i.
Qed.

Variable value_counts_order : list Z -> list Z.

(** On the train part of a dataframe built by the loader, every count
    that the greedy selection records is the number of segments covered
    by the vehicles selected up to that step. *)
Theorem greedy_counts_are_coverage docs df split k
    (selected : list Z) (coverage : list string) (counts : list nat)
    (iterations : list Z) :
  fetch.fetch_data_for_vehicle_selection docs = Return df ->
  let train := fst (VehicleSelector.train_test_splitter df split) in
  max_coverage_greedy_logic S value_counts_order train k
  = Ok (selected, coverage, counts, iterations) ->
  counts_are_coverage train selected counts /\
  List.last counts 0%nat = size (coverage_of selected train).
Proof.
  intros Hfetch train Hrun.
  apply greedy_ok_inv in Hrun as (n & st0 & Hfirst & -> & _ & -> & _).
  destruct (invariant_first_pick _ _ _ _ Hfirst) as (Hinv & _ & first & Hcv & _).
  assert (Hst0 : recorded st0 /\
                 current_count st0 = [size (coverage_of [first] train)]).
  { unfold first_pick in Hfirst.
    destruct (py.max snd (stats value_counts_order train)) as [item|];
      [|discriminate].
    cbn [mbind result_bind] in Hfirst. injection Hfirst as _ <-.
    cbn [current_vehicles] in Hcv. injection Hcv as Hcv.
    split; [repeat split; cbn; [discriminate | repeat constructor]|].
    cbn [current_count]. rewrite Hcv. f_equal.
    pose proof (loader_rows_distinct_segments docs df
                  (fun r => temporal_id r <= split) first Hfetch) as Hnodup.
    unfold coverage_of.
    replace (filter (fun r => vehicle_id r ∈ [first]) train)
      with (rows_of first train)
      by (apply list_filter_iff; intros r; now rewrite list_elem_of_singleton).
    now rewrite size_list_to_set. }
  destruct Hst0 as [Hrec Hcount0].
  assert (Hall : counts_are_coverage train
            (current_vehicles (loop n (py.range 1 k) st0))
            (current_count (loop n (py.range 1 k) st0))).
  { apply counts_loop; [assumption | assumption |].
    rewrite Hcv, Hcount0. intros [|j] c Hj; [|discriminate].
    now injection Hj as <-. }
  split; [exact Hall|].
  destruct (loop_recorded n (py.range 1 k) st0 Hrec) as (Hne & _ & Hlen).
  set (final := loop n (py.range 1 k) st0) in *.
  destruct (current_count final) as [|c0 cs] eqn:Hcs using rev_ind;
    [congruence|].
  rewrite last_last. rewrite length_app in Hlen. simpl in Hlen.
  rewrite (Hall (length cs) c0).
  - rewrite take_ge by lia. reflexivity.
  - rewrite lookup_app_r by lia. now rewrite Nat.sub_diag.
Qed.

End GreedyOnLoaderTable.

Lemma greedy_counts_are_coverage_witness :
  counts_are_coverage (fst (VehicleSelector.train_test_splitter tagged_table 250))
    [1; 3] [1; 2]%nat /\
  List.last [1; 2]%nat 0%nat
  = size (coverage_of [1; 3]
            (fst (VehicleSelector.train_test_splitter tagged_table 250))).
Proof.
  apply (greedy_counts_are_coverage (total := py.cpython) py.value_counts_index
           tagged_documents tagged_table 250 2 [1; 3] ["-2_200"; "1_100"]
           [1; 2]%nat [0; 1]); reflexivity.
Defined.


(** ** MaxPointsVehicleSelector.train *)

Section MaxPoints.

Import MaxPointsVehicleSelector.

Implicit Types (df : dataframe) (self : VehicleSelector.t) (v w : Z)
  (rows : list (Z * Z)).

Lemma groupby_sum_keys df :
  map fst (groupby_sum df) ≡ₚ py.unique (map vehicle_id df).
Proof.
  unfold groupby_sum, py.ascending_order. rewrite map_map. simpl.
  rewrite map_id. apply sort_by_Permutation.
Qed.

Lemma groupby_sum_elem df v c :
  (v, c) ∈ groupby_sum df -> c = total_count v df /\ v ∈ map vehicle_id df.
Proof.
  unfold groupby_sum. intros Hin.
  apply list_elem_of_In, in_map_iff in Hin as (x & [= -> <-] & Hx).
  split; [reflexivity|].
  apply list_elem_of_In in Hx. unfold py.ascending_order in Hx.
  rewrite sort_by_Permutation in Hx. apply unique_elem_of. exact Hx.
Qed.

Lemma groupby_sum_has df v :
  v ∈ map vehicle_id df -> (v, total_count v df) ∈ groupby_sum df.
Proof.
  intros Hv. unfold groupby_sum.
  apply list_elem_of_In, (in_map (fun v => (v, total_count v df))), list_elem_of_In.
  unfold py.ascending_order. rewrite sort_by_Permutation.
  now apply unique_elem_of.
Qed.

Lemma head_is_take {A : Type} (n : Z) (l : list A) :
  exists m, head n l = take m l /\
            Z.of_nat (Nat.min m (length l))
            = if 0 <=? n then Z.min n (Z.of_nat (length l))
              else Z.max 0 (Z.of_nat (length l) + n).
Proof.
  unfold head. destruct (Z.leb_spec 0 n).
  - exists (Z.to_nat n). split; [reflexivity | lia].
  - exists (length l - Z.to_nat (- n))%nat. split; [reflexivity | lia].
Qed.

Variable sort_values : list (Z * Z) -> list (Z * Z).

(** The vehicles selected by MaxPoints are distinct vehicles of the train
    table; there are [k] of them, or all the vehicles of the table when
    it has fewer than [k], and for a negative [k] all but the last [-k]
    of the sorted vehicles. *)
Theorem max_points_selection self :
  let df := VehicleSelector.df_train self in
  let k := VehicleSelector.num_to_select self in
  sort_values (groupby_sum df) ≡ₚ groupby_sum df ->
  NoDup (train sort_values self) /\
  train sort_values self ⊆ map vehicle_id df /\
  Z.of_nat (length (train sort_values self))
  = if 0 <=? k then Z.min k (distinct_agents df)
    else Z.max 0 (distinct_agents df + k).
Proof.
  intros df k Hperm. unfold train. fold df k.
  set (sorted := sort_values (groupby_sum df)) in *.
  destruct (head_is_take k sorted) as (m & -> & Hm).
  assert (Hkeys : map fst sorted ≡ₚ py.unique (map vehicle_id df)).
  { rewrite <- groupby_sum_keys. now apply Permutation_map. }
  rewrite <- firstn_map.
  split; [|split].
  - assert (Hnodup : NoDup (map fst sorted))
      by (rewrite Hkeys; apply unique_NoDup).
    rewrite <- (take_drop m (map fst sorted)) in Hnodup.
    now apply NoDup_app in Hnodup as [Hnodup _].
  - intros v Hv. apply unique_elem_of. rewrite <- Hkeys.
    eapply subseteq_take; exact Hv.
  - rewrite length_take, length_map.
    assert (Hlen : length sorted = length (py.unique (map vehicle_id df))).
    { rewrite <- (length_map fst sorted). now rewrite Hkeys. }
    unfold distinct_agents. rewrite <- Hlen. exact Hm.
Qed.

(** MaxPoints selects the vehicles with the most data points: no vehicle
    of the train table that is left out has a larger total count than a
    selected vehicle. *)
Theorem max_points_selects_top self v w :
  let df := VehicleSelector.df_train self in
  sorts_descending sort_values (groupby_sum df) ->
  v ∈ train sort_values self ->
  w ∈ map vehicle_id df -> w ∉ train sort_values self ->
  total_count w df <= total_count v df.
Proof.
  intros df [Hperm Hsorted]. unfold train. fold df.
  set (sorted := sort_values (groupby_sum df)) in *.
  destruct (head_is_take (VehicleSelector.num_to_select self) sorted)
    as (m & -> & _).
  intros Hv Hw Hout.
  apply list_elem_of_In, in_map_iff in Hv as ([v' c] & Hfst & Hv).
  simpl in Hfst. subst v'. apply list_elem_of_In in Hv.
  assert (Hc : c = total_count v df).
  { apply (groupby_sum_elem df v c). rewrite <- Hperm.
    eapply subseteq_take; exact Hv. }
  assert (Hin : (w, total_count w df) ∈ sorted)
    by (rewrite Hperm; now apply groupby_sum_has).
  rewrite <- (take_drop m sorted) in Hin, Hsorted.
  apply elem_of_app in Hin as [Hin|Hin].
  - exfalso. apply Hout.
    apply list_elem_of_In, in_map_iff. exists (w, total_count w df).
    split; [reflexivity | now apply list_elem_of_In].
  - pose proof (StronglySorted_app_1_elem_of _ _ _ _ _ Hsorted Hv Hin) as Hle.
    simpl in Hle. now subst c.
Qed.

End MaxPoints.

Lemma max_points_selection_witness :
  NoDup (MaxPointsVehicleSelector.train MaxPointsVehicleSelector.stable_sort
           (selector_on tie_table 2)) /\
  MaxPointsVehicleSelector.train MaxPointsVehicleSelector.stable_sort
    (selector_on tie_table 2) ⊆ map vehicle_id tie_table /\
  Z.of_nat (length (MaxPointsVehicleSelector.train
                      MaxPointsVehicleSelector.stable_sort
                      (selector_on tie_table 2)))
  = Z.min 2 (distinct_agents tie_table).
Proof.
  apply (max_points_selection MaxPointsVehicleSelector.stable_sort
           (selector_on tie_table 2)).
  apply sort_by_Permutation.
Defined.

Lemma max_points_selects_top_witness :
  MaxPointsVehicleSelector.total_count 8 tie_table
  <= MaxPointsVehicleSelector.total_count 2 tie_table.
Proof.
  apply (max_points_selects_top MaxPointsVehicleSelector.stable_sort
           (selector_on tie_table 2) 2 8).
  - split; [apply sort_by_Permutation|].
    change (StronglySorted (fun a b : Z * Z => snd b <= snd a)
              [(2, 2); (1, 1); (8, 1)]).
    repeat constructor; simpl; lia.
  - change (2 ∈ [2; 1]). left.
  - change (8 ∈ [2; 2; 8; 1]). rewrite !elem_of_cons. tauto.
  - change (8 ∉ [2; 1]). rewrite !elem_of_cons, elem_of_nil.
    intros [H|[H|[]]]; discriminate H.
Defined.

(** ** Stratification: stratum ids and the checks at construction *)

Section StratumIds.

Import SpatialStratification.

Variable coordinates : Type.

Implicit Types (features before after : list (feature coordinates))
  (f : feature coordinates) (i : nat).

Lemma insert_stratum_id_numbered i f :
  properties f <> null -> insert_stratum_id i f = Return (numbered i f).
Proof.
  unfold insert_stratum_id, numbered.
  destruct (properties f); [reflexivity | congruence | reflexivity].
Qed.

Lemma numbered_twice i f : numbered i (numbered i f) = numbered i f.
Proof.
  unfold numbered. cbn [properties feature_geometry dict_of].
  now rewrite insert_insert_eq.
Qed.

Lemma numbered_not_null i f : properties (numbered i f) <> null.
Proof. discriminate. Qed.

Lemma assign_from_numbered features : forall i,
  Forall (fun f => properties f <> null) features ->
  assign_from i features = (imap (fun j => numbered (i + j)) features, None).
Proof.
  induction features as [|f features IH]; intros i Hall; [reflexivity|].
  apply Forall_cons in Hall as [Hf Hall].
  cbn [assign_from imap]. rewrite insert_stratum_id_numbered by assumption.
  rewrite (IH (S i) Hall), Nat.add_0_r. do 2 f_equal.
  apply imap_ext. intros j x _. cbn. f_equal. lia.
Qed.

Lemma assign_from_null before f after : forall i,
  Forall (fun f => properties f <> null) before ->
  properties f = null ->
  assign_from i (before ++ f :: after)
  = (imap (fun j => numbered (i + j)) before ++ f :: after,
     Some (raised.TypeError
             "'NoneType' object does not support item assignment")).
Proof.
  induction before as [|x before IH]; intros i Hall Hnull.
  - cbn [app assign_from imap]. unfold insert_stratum_id. now rewrite Hnull.
  - apply Forall_cons in Hall as [Hx Hall].
    cbn [app assign_from imap]. rewrite insert_stratum_id_numbered by assumption.
    rewrite (IH (S i) Hall Hnull), Nat.add_0_r. do 2 f_equal.
    f_equal. apply imap_ext. intros j y _. cbn. f_equal. lia.
Qed.

Lemma assign_from_inv features : forall i assigned,
  assign_from i features = (assigned, None) ->
  Forall (fun f => properties f <> null) features.
Proof.
  induction features as [|f features IH]; intros i assigned Hrun; [constructor|].
  cbn [assign_from] in Hrun.
  destruct (properties f) eqn:Hf.
  - rewrite insert_stratum_id_numbered in Hrun by congruence.
    destruct (assign_from (S i) features) as [rest e] eqn:Hrest.
    injection Hrun as _ ->. constructor; [congruence|]. now apply (IH _ _ Hrest).
  - unfold insert_stratum_id in Hrun. rewrite Hf in Hrun. discriminate.
  - rewrite insert_stratum_id_numbered in Hrun by congruence.
    destruct (assign_from (S i) features) as [rest e] eqn:Hrest.
    injection Hrun as _ ->. constructor; [congruence|]. now apply (IH _ _ Hrest).
Qed.

Lemma numbered_lookup features i j :
  imap (fun j => numbered (i + j)) features !! j
  = numbered (i + j) <$> features !! j.
Proof. exact (list_lookup_imap (fun j => numbered (i + j)) features j). Qed.

Lemma numbered_all_twice features : forall i,
  imap (fun j => numbered (i + j)) (imap (fun j => numbered (i + j)) features)
  = imap (fun j => numbered (i + j)) features.
Proof.
  intros i. apply list_eq. intros j. rewrite !numbered_lookup.
  destruct (features !! j) as [f|]; [|reflexivity].
  cbn. now rewrite numbered_twice.
Qed.

(** [_assign_stratum_id] on a GeoJSON dict.  When no feature has null
    properties it gives every stratum its position, counted from 0, as
    [stratum_id]: it keeps the number and the order of the features,
    their geometry and their other properties, writes into the GeoJSON
    that it was given and returns it, and applying it again changes
    nothing.  At the first feature with null properties it raises
    [TypeError], and the features before that one are left numbered. *)
Theorem assign_stratum_id_positions features :
  (Forall (fun f => properties f <> null) features ->
   exists assigned,
     assign_stratum_id (geojson features)
     = (geojson assigned, Return assigned) /\
     length assigned = length features /\
     (forall i f, features !! i = Some f ->
        exists f' props,
          assigned !! i = Some f' /\
          feature_geometry f' = feature_geometry f /\
          properties f' = object props /\
          props !! "stratum_id"%string = Some (Int (Z.of_nat i)) /\
          forall key, key <> "stratum_id"%string ->
                      props !! key = dict_of (properties f) !! key) /\
     assign_stratum_id (geojson assigned)
     = (geojson assigned, Return assigned)) /\
  (forall before f after,
     features = before ++ f :: after ->
     Forall (fun f => properties f <> null) before ->
     properties f = null ->
     exists done,
       assign_stratum_id (geojson features)
       = (geojson (done ++ f :: after),
          Fail (raised.TypeError
                  "'NoneType' object does not support item assignment")) /\
       length done = length before /\
       forall i g, done !! i = Some g ->
         exists props,
           properties g = object props /\
           props !! "stratum_id"%string = Some (Int (Z.of_nat i))).
Proof.
  split.
  - intros Hall. exists (imap (fun j => numbered (0 + j)) features).
    cbn [assign_stratum_id]. rewrite assign_from_numbered by assumption.
    split; [reflexivity|]. split; [apply length_imap|]. split.
    + intros i f Hf. eexists _, _. rewrite numbered_lookup, Hf.
      split; [reflexivity|]. split; [reflexivity|]. split; [reflexivity|].
      split; [apply lookup_insert_eq|].
      intros key Hkey. now apply lookup_insert_ne.
    + rewrite assign_from_numbered.
      * now rewrite numbered_all_twice.
      * apply Forall_forall. intros f [j Hf]%list_elem_of_lookup.
        rewrite numbered_lookup in Hf.
        destruct (features !! j); [|discriminate]. injection Hf as <-.
        apply numbered_not_null.
  - intros before f after -> Hall Hnull.
    exists (imap (fun j => numbered (0 + j)) before).
    cbn [assign_stratum_id]. rewrite assign_from_null by assumption.
    split; [reflexivity|]. split; [apply length_imap|].
    intros i g Hg. rewrite numbered_lookup in Hg.
    destruct (before !! i); [|discriminate]. injection Hg as <-.
    eexists. split; [reflexivity|]. apply lookup_insert_eq.
Qed.

Lemma check_inputs_polygons features :
  Forall (fun f => type <$> feature_geometry f = Some "Polygon"%string)
         features ->
  CustomStratification.check_inputs features = Return (true, ""%string).
Proof.
  induction 1 as [|f features Hf _ IH]; [reflexivity|].
  cbn [CustomStratification.check_inputs].
  destruct (feature_geometry f) as [g|]; [|discriminate].
  injection Hf as ->. exact IH.
Qed.

Lemma check_inputs_first_other before f after :
  Forall (fun f => type <$> feature_geometry f = Some "Polygon"%string)
         before ->
  type <$> feature_geometry f <> Some "Polygon"%string ->
  CustomStratification.check_inputs (before ++ f :: after)
  = match feature_geometry f with
    | None => Fail (raised.TypeError "'NoneType' object is not subscriptable")
    | Some _ =>
        Return
          (false,
           "Custom GeoJSON must contain only Polygon types. No other GeoJSON type is supported."%string)
    end.
Proof.
  intros Hall Hf. induction Hall as [|x before Hx _ IH].
  - cbn [app CustomStratification.check_inputs].
    destruct (feature_geometry f) as [g|]; [|reflexivity].
    destruct (String.eqb_spec (type g) "Polygon") as [Heq|Hne]; [|reflexivity].
    destruct Hf. cbn. now rewrite Heq.
  - cbn [app CustomStratification.check_inputs].
    destruct (feature_geometry x) as [g|]; [|discriminate].
    injection Hx as ->. exact IH.
Qed.

(** A custom stratification is constructed, keeping the GeoJSON, exactly
    when every feature has a Polygon as geometry.  Otherwise the first
    feature that has none decides: a null geometry raises [TypeError],
    another type of geometry [ValueError].  Once the object is
    constructed, [stratify] gives every feature its position as stratum
    id and leaves it a Polygon, unless a feature has null properties, in
    which case it raises [TypeError]. *)
Theorem custom_stratification_polygons features :
  (Forall (fun f => type <$> feature_geometry f = Some "Polygon"%string)
          features ->
   exists self,
     CustomStratification.init features = Return self /\
     CustomStratification.input_geojson self = features /\
     (Forall (fun f => properties f <> null) features ->
      exists stratified,
        CustomStratification.stratify self = (stratified, None) /\
        length (CustomStratification.input_geojson stratified)
        = length features /\
        forall i f,
          CustomStratification.input_geojson stratified !! i = Some f ->
          type <$> feature_geometry f = Some "Polygon"%string /\
          exists props,
            properties f = object props /\
            props !! "stratum_id"%string = Some (Int (Z.of_nat i))) /\
     (~ Forall (fun f => properties f <> null) features ->
      exists stratified,
        CustomStratification.stratify self
        = (stratified,
           Some (raised.TypeError
                   "'NoneType' object does not support item assignment")))) /\
  (forall before f after,
     features = before ++ f :: after ->
     Forall (fun f => type <$> feature_geometry f = Some "Polygon"%string)
            before ->
     type <$> feature_geometry f <> Some "Polygon"%string ->
     CustomStratification.init features
     = Fail (match feature_geometry f with
             | None =>
                 raised.TypeError "'NoneType' object is not subscriptable"
             | Some _ =>
                 raised.ValueError
                   "Custom GeoJSON must contain only Polygon types. No other GeoJSON type is supported."
             end)).
Proof.
  split.
  - intros Hall. eexists. unfold CustomStratification.init.
    rewrite check_inputs_polygons by assumption.
    split; [reflexivity|]. split; [reflexivity|].
    unfold CustomStratification.stratify.
    cbn [CustomStratification.input_geojson]. split.
    + intros Hprops. eexists. rewrite assign_from_numbered by assumption.
      split; [reflexivity|]. cbn [CustomStratification.input_geojson].
      split; [apply length_imap|].
      intros i f Hf. rewrite numbered_lookup in Hf.
      destruct (features !! i) as [f0|] eqn:Hf0; [|discriminate].
      injection Hf as <-. split.
      * rewrite Forall_forall in Hall. apply (Hall f0).
        now apply list_elem_of_lookup_2 with i.
      * eexists. split; [reflexivity|]. apply lookup_insert_eq.
    + intros Hnot.
      destruct (assign_from 0 features) as [done [e|]] eqn:Hrun.
      * assert (Hsome : exists before f after,
                  features = before ++ f :: after /\
                  Forall (fun f => properties f <> null) before /\
                  properties f = null).
        { clear Hall Hrun. induction features as [|x features IH].
          - destruct Hnot. constructor.
          - assert (Hcase : properties x = null \/ properties x <> null)
              by (destruct (properties x);
                  [right; discriminate | now left | right; discriminate]).
            destruct Hcase as [Hx|Hx].
            + exists [], x, features. split; [reflexivity|].
              split; [constructor | exact Hx].
            + destruct IH as (before & f & after & -> & Hbefore & Hf).
              { intros Hrest. apply Hnot. now constructor. }
              exists (x :: before), f, after. split; [reflexivity|].
              split; [now constructor | exact Hf]. }
        destruct Hsome as (before & f & after & -> & Hbefore & Hf).
        rewrite assign_from_null in Hrun by assumption.
        injection Hrun as <- <-. eexists. reflexivity.
      * destruct Hnot. now apply (assign_from_inv features 0 done).
  - intros before f after -> Hall Hf. unfold CustomStratification.init.
    rewrite check_inputs_first_other by assumption.
    now destruct (feature_geometry f).
Qed.

End StratumIds.

Section Grid.

Local Open Scope Q_scope.

Lemma Qle_bool_false (x y : Q) : Qle_bool x y = false <-> y < x.
Proof.
  split.
  - intros Hfalse. apply Qnot_le_lt. intros Hle%Qle_bool_iff. congruence.
  - intros Hlt. destruct (Qle_bool x y) eqn:Hle; [|reflexivity].
    apply Qle_bool_iff in Hle. now apply Qlt_not_le in Hlt.
Qed.

(** A grid stratification is constructed exactly when the cell side is
    positive and the bounding box is a non-empty box of valid coordinates:
    minimum below maximum on both axes, latitudes from -90 to 90 and
    longitudes from -180 to 180; otherwise construction raises
    [ValueError].  The object keeps the values as given. *)
Theorem grid_stratification_accepts (side lng0 lat0 lng1 lat1 : Q) :
  (0 < side /\ lat0 < lat1 /\ lng0 < lng1 /\
   -90 <= lat0 /\ lat1 <= 90 /\ -180 <= lng0 /\ lng1 <= 180 ->
   GridStratification.init side lng0 lat0 lng1 lat1
   = Return {| GridStratification.cell_side := side;
               GridStratification.min_lng := lng0;
               GridStratification.min_lat := lat0;
               GridStratification.max_lng := lng1;
               GridStratification.max_lat := lat1 |}) /\
  (~ (0 < side /\ lat0 < lat1 /\ lng0 < lng1 /\
      -90 <= lat0 /\ lat1 <= 90 /\ -180 <= lng0 /\ lng1 <= 180) ->
   exists msg,
     GridStratification.init side lng0 lat0 lng1 lat1
     = Fail (raised.ValueError msg)).
Proof.
  unfold GridStratification.init, GridStratification.check_inputs.
  repeat
    (match goal with
     | |- context [Qle_bool ?a ?b] =>
         let H := fresh "H" in
         destruct (Qle_bool a b) eqn:H;
         [apply Qle_bool_iff in H | apply Qle_bool_false in H];
         cbn [negb andb];
         try solve
           [ split;
             [ intros (? & ? & ? & ? & ? & ? & ?); exfalso; lra
             | intros _; eexists; reflexivity ] ]
     end).
  split; [reflexivity|].
  intros Hnot. exfalso. apply Hnot.
  split; [lra|]. split; [lra|]. split; [lra|]. split; [lra|].
  split; [lra|]. split; lra.
Qed.

End Grid.

(** ** DataLoader.compute_stratum_id_and_update_db *)

Section Strata.

Import SpatialStratification strata.

Context {coordinates location : Type}.
Variable geo_within : geometry coordinates -> location -> bool.

Local Abbreviation within f p := (strata.contains _ _ geo_within f p).
Local Abbreviation update_strata := (strata.update_strata _ _ geo_within).
Local Abbreviation last_containing := (strata.last_containing _ _ geo_within).
Local Abbreviation set_stratum_id := (strata.set_stratum_id _ _ geo_within).
Local Abbreviation modified := (strata.modified _ _ geo_within).

Lemma last_containing_none i features p :
  last_containing i features p = None <->
  Forall (fun f => within f p = false) features.
Proof.
  revert i. induction features as [|f features IH]; intros i.
  - split; [constructor|reflexivity].
  - cbn [strata.last_containing]. rewrite Forall_cons.
    destruct (last_containing (S i) features p) as [j|] eqn:Hrest.
    + split; [discriminate|]. intros [_ Hall]. apply (IH (S i)) in Hall.
      congruence.
    + apply IH in Hrest. destruct (within f p); split; easy.
Qed.

Lemma last_containing_some i features p j :
  last_containing i features p = Some j ->
  exists k f, j = (i + k)%nat /\ features !! k = Some f /\
              within f p = true /\
              Forall (fun f' => within f' p = false) (drop (S k) features).
Proof.
  revert i. induction features as [|f features IH]; intros i; [discriminate|].
  cbn [strata.last_containing].
  destruct (last_containing (S i) features p) as [j'|] eqn:Hrest.
  - intros [= ->]. destruct (IH _ Hrest) as (k & f' & -> & Hk & Hin & Hafter).
    exists (S k), f'. split; [lia|]. now split; [|split].
  - destruct (within f p) eqn:Hin; [|discriminate]. intros [= <-].
    exists 0%nat, f. split; [lia|]. split; [reflexivity|]. split; [exact Hin|].
    now apply last_containing_none in Hrest.
Qed.

Lemma last_containing_is features p j f :
  features !! j = Some f -> within f p = true ->
  (forall j' f', (j < j')%nat -> features !! j' = Some f' ->
                 within f' p = false) ->
  last_containing 0 features p = Some j.
Proof.
  intros Hj Hin Hlater.
  destruct (last_containing 0 features p) as [j0|] eqn:Hlast.
  - destruct (last_containing_some _ _ _ _ Hlast)
      as (k & f0 & -> & Hk & Hin0 & Hafter).
    cbn [Nat.add]. f_equal.
    destruct (Nat.lt_trichotomy j k) as [Hlt|[Heq|Hgt]]; [|now subst|].
    + rewrite (Hlater _ _ Hlt Hk) in Hin0. discriminate.
    + rewrite Forall_forall in Hafter.
      assert (Hf : f ∈ drop (S k) features).
      { apply list_elem_of_lookup. exists (j - S k)%nat.
        rewrite lookup_drop. now replace (S k + (j - S k))%nat with j by lia. }
      apply Hafter in Hf. congruence.
  - apply last_containing_none in Hlast. rewrite Forall_forall in Hlast.
    assert (Hf : f ∈ features) by now apply list_elem_of_lookup_2 with j.
    apply Hlast in Hf. congruence.
Qed.

(** The documents after the loop over strata that have a geometry and
    are numbered from [i]. *)
Lemma update_strata_assigned features : forall i docs n,
  Forall (fun f => feature_geometry f <> None) features ->
  exists n',
    update_strata (imap (fun j => numbered (i + j)) features) docs n
    = (map (fun d =>
              match last_containing i features (doc_location d) with
              | Some j => {| _id := _id d; doc_location := doc_location d;
                             stratum_id := Some (Int (Z.of_nat j)) |}
              | None => d
              end) docs,
       Return n').
Proof.
  induction features as [|f features IH]; intros i docs n Hall.
  - exists n. cbn. now rewrite map_id.
  - apply Forall_cons in Hall as [Hf Hall].
    destruct (feature_geometry f) as [g|] eqn:Hg; [|congruence].
    cbn [imap strata.update_strata]. unfold strata.stratum_id_of.
    cbn [numbered properties feature_geometry]. rewrite lookup_insert_eq, Hg.
    rewrite (imap_ext _ (fun j => numbered (S i + j)) features)
      by (intros j x _; cbn; f_equal; lia).
    edestruct (IH (S i)) as [n' ->]; [exact Hall|]. exists n'. f_equal.
    rewrite map_map. apply map_ext. intros d.
    rewrite Nat.add_0_r. cbn [strata.last_containing].
    unfold strata.set_stratum_id, strata.contains. rewrite Hg.
    destruct (geo_within g (doc_location d)) eqn:Hin; cbn [doc_location _id];
      now destruct (last_containing (S i) features (doc_location d)).
Qed.

Lemma unmodified_unchanged g id docs :
  filter (fun d => modified g id d = true) docs = [] ->
  map (set_stratum_id g id) docs = docs.
Proof.
  induction docs as [|d docs IH]; [reflexivity|].
  rewrite filter_cons. destruct (decide (modified g id d = true)) as [|Hno];
    [discriminate|].
  intros Hrest. cbn [map]. rewrite (IH Hrest). f_equal.
  unfold strata.modified in Hno. unfold strata.set_stratum_id.
  destruct (geo_within g (doc_location d)); [|reflexivity].
  destruct (bool_decide_reflect (stratum_id d = Some id)) as [Heq|];
    [|now destruct Hno].
  destruct d. cbn in Heq. now subst.
Qed.

Lemma update_strata_count features docs n docs' n' :
  update_strata features docs n = (docs', Return n') ->
  n <= n' /\ (n' = n -> docs' = docs).
Proof.
  revert docs n. induction features as [|f features IH]; intros docs n.
  - intros [= <- <-]. split; [lia|reflexivity].
  - cbn [strata.update_strata].
    destruct (stratum_id_of f) as [id|e]; [|discriminate].
    destruct (feature_geometry f) as [g|]; [|discriminate].
    intros Hrun. apply IH in Hrun as [Hle Hsame].
    split; [lia|]. intros ->.
    assert (Hnone : filter (fun d => modified g id d = true) docs = [])
      by (apply length_zero_iff_nil; lia).
    rewrite Hnone in Hsame. cbn [length] in Hsame.
    rewrite Hsame by lia. now apply unmodified_unchanged.
Qed.

(** On a populated collection and strata that have a geometry and were
    numbered by [_assign_stratum_id], [compute_stratum_id_and_update_db]
    raises nothing and leaves every document with its id and location; a
    document that no stratum contains keeps its stratum id, and one that
    several strata contain gets the position of the last of them. *)
Theorem stratum_id_of_last_containing (self : DataLoader.t)
    (features assigned : list (feature coordinates))
    (afterwards : argument coordinates) (docs : list (doc location)) :
  assign_stratum_id (geojson features) = (afterwards, Return assigned) ->
  Forall (fun f => feature_geometry f <> None) features ->
  docs <> [] ->
  exists docs' n,
    compute_stratum_id_and_update_db _ _ geo_within self assigned docs
    = (docs', Return (n, n =? 0)) /\
    length docs' = length docs /\
    forall k d, docs !! k = Some d ->
      exists d',
        docs' !! k = Some d' /\
        _id d' = _id d /\
        doc_location d' = doc_location d /\
        (Forall (fun f => strata.contains _ _ geo_within f (doc_location d)
                          = false) features ->
         stratum_id d' = stratum_id d) /\
        (forall j f,
           features !! j = Some f ->
           strata.contains _ _ geo_within f (doc_location d) = true ->
           (forall j' f', (j < j')%nat -> features !! j' = Some f' ->
                          strata.contains _ _ geo_within f' (doc_location d)
                          = false) ->
           stratum_id d' = Some (Int (Z.of_nat j))).
Proof.
  intros Hassign Hgeometry Hdocs. cbn [assign_stratum_id] in Hassign.
  destruct (assign_from 0 features) as [numbered_features [e|]] eqn:Hfrom;
    [discriminate|].
  injection Hassign as _ <-.
  pose proof (assign_from_inv _ features 0 _ Hfrom) as Hprops.
  rewrite assign_from_numbered in Hfrom by assumption.
  injection Hfrom as <-.
  unfold compute_stratum_id_and_update_db.
  destruct docs as [|d0 docs0] eqn:Hshape; [contradiction|]. rewrite <- Hshape.
  destruct (update_strata_assigned features 0 docs 0 Hgeometry) as [n Hrun].
  cbn [Nat.add] in Hrun.
  rewrite Hrun. eexists _, n. split; [reflexivity|].
  split; [apply length_map|].
  intros k d Hk. rewrite list_lookup_fmap, Hk. cbn [fmap option_fmap option_map].
  eexists. split; [reflexivity|].
  destruct (last_containing 0 features (doc_location d)) as [j0|] eqn:Hlast.
  - cbn [_id doc_location stratum_id].
    split; [reflexivity|]. split; [reflexivity|]. split.
    + intros Hnone%(last_containing_none 0). congruence.
    + intros j f Hj Hin Hlater.
      rewrite (last_containing_is _ _ _ _ Hj Hin Hlater) in Hlast.
      now injection Hlast as <-.
  - split; [reflexivity|]. split; [reflexivity|]. split; [reflexivity|].
    intros j f Hj Hin Hlater.
    rewrite (last_containing_is _ _ _ _ Hj Hin Hlater) in Hlast. discriminate.
Qed.

(** Whatever the strata, when [compute_stratum_id_and_update_db] returns
    it returns a count that is not negative, and a count of 0, the case of
    the warning, means that the collection is as it was. *)
Theorem no_update_leaves_collection (self : DataLoader.t)
    (features : list (feature coordinates)) (docs docs' : list (doc location))
    (n : Z) (warned : bool) :
  compute_stratum_id_and_update_db _ _ geo_within self features docs
  = (docs', Return (n, warned)) ->
  0 <= n /\ (warned = true <-> n = 0) /\ (n = 0 -> docs' = docs).
Proof.
  unfold compute_stratum_id_and_update_db.
  destruct docs as [|d0 docs0] eqn:Hshape; [discriminate|]. rewrite <- Hshape.
  destruct (update_strata features docs 0) as [docs1 [n1|e]] eqn:Hrun;
    [|discriminate].
  intros [= <- <- <-]. apply update_strata_count in Hrun as [Hle Hsame].
  split; [exact Hle|]. split; [apply Z.eqb_eq|]. exact Hsame.
Qed.

End Strata.

Lemma assign_stratum_id_positions_witness :
  exists assigned,
    SpatialStratification.assign_stratum_id
      (SpatialStratification.geojson [polygon 0 10; polygon 3 7])
    = (SpatialStratification.geojson assigned, Return assigned) /\
    length assigned = 2%nat.
Proof.
  destruct (assign_stratum_id_positions (Z * Z) [polygon 0 10; polygon 3 7])
    as [Hok _].
  destruct Hok as (assigned & Hrun & Hlength & _).
  - constructor; [discriminate|]. constructor; [discriminate|]. constructor.
  - exists assigned. split; [exact Hrun | exact Hlength].
Defined.

Lemma custom_stratification_polygons_witness :
  exists self,
    CustomStratification.init [polygon 0 10; polygon 3 7] = Return self /\
    CustomStratification.input_geojson self = [polygon 0 10; polygon 3 7].
Proof.
  destruct (custom_stratification_polygons (Z * Z) [polygon 0 10; polygon 3 7])
    as [Hok _].
  destruct Hok as (self & Hinit & Hkept & _).
  - constructor; [reflexivity|]. constructor; [reflexivity|]. constructor.
  - exists self. split; [exact Hinit | exact Hkept].
Defined.

Lemma grid_stratification_accepts_witness :
  exists grid,
    GridStratification.init (1 # 2) 77 28 78 29 = Return grid.
Proof.
  destruct (grid_stratification_accepts (1 # 2) 77 28 78 29) as [Hok _].
  eexists. apply Hok.
  split; [reflexivity|]. split; [reflexivity|]. split; [reflexivity|].
  split; [discriminate|]. split; [discriminate|]. split; discriminate.
Defined.

Lemma stratum_id_of_last_containing_witness :
  exists docs' n,
    strata.compute_stratum_id_and_update_db _ _ between (loader 3600)
      (imap SpatialStratification.numbered [polygon 0 10; polygon 3 7])
      [located 0 5; located 1 50]
    = (docs', Return (n, n =? 0)).
Proof.
  destruct (stratum_id_of_last_containing between (loader 3600)
              [polygon 0 10; polygon 3 7]
              (imap SpatialStratification.numbered [polygon 0 10; polygon 3 7])
              (SpatialStratification.geojson
                 (imap SpatialStratification.numbered
                       [polygon 0 10; polygon 3 7]))
              [located 0 5; located 1 50])
    as (docs' & n & Hrun & _).
  - reflexivity.
  - constructor; [discriminate|]. constructor; [discriminate|]. constructor.
  - discriminate.
  - exists docs', n. exact Hrun.
Defined.

Lemma no_update_leaves_collection_witness :
  0 <= 0 /\ (true = true <-> 0 = 0) /\
  (0 = 0 -> [located 1 50] = [located 1 50]).
Proof.
  apply (no_update_leaves_collection between (loader 3600)
           (imap SpatialStratification.numbered [polygon 0 10])
           [located 1 50] [located 1 50] 0 true).
  vm_compute. reflexivity.
Defined.

(** ** DataLoader._anonymize_data *)

Section Anonymization.

Import mobility.

Lemma dict_lookup (items : list (Z * Z)) (mapping : gmap Z Z) (k a : Z) :
  NoDup (items.*1) ->
  foldl (fun mapping item => <[item.1 := item.2]> mapping) mapping items !! k
  = Some a <->
  (k, a) ∈ items \/ ((k ∉ items.*1) /\ mapping !! k = Some a).
Proof.
  revert mapping. induction items as [|[k0 a0] items IH]; intros mapping Hnodup.
  - cbn. rewrite elem_of_nil. split.
    + intros Hm. right. split; [apply not_elem_of_nil | exact Hm].
    + now intros [[]|[_ Hm]].
  - rewrite fmap_cons in *. cbn [foldl fst snd] in *.
    apply NoDup_cons in Hnodup as [Hfresh Hnodup].
    rewrite (IH _ Hnodup). rewrite not_elem_of_cons, !elem_of_cons.
    assert (Hnot : forall x, (k0, x) ∉ items).
    { intros x Hx. apply Hfresh. apply list_elem_of_fmap. now exists (k0, x). }
    destruct (decide (k = k0)) as [->|Hne].
    + rewrite lookup_insert_eq. split.
      * intros [Hin|[_ [= <-]]]; [now apply Hnot in Hin | now left; left].
      * intros [[[= <-]|Hin]|[[Hne _] _]];
          [now right | now apply Hnot in Hin | congruence].
    + rewrite lookup_insert_ne by congruence. split.
      * intros [Hin|[Hout Hm]]; [now left; right | now right].
      * intros [[[= -> _]|Hin]|[[_ Hout] Hm]];
          [congruence | now left | now right].
Qed.

Lemma dict_zip_lookup (keys values : list Z) (k a : Z) :
  NoDup keys -> length keys = length values ->
  dict (zip keys values) !! k = Some a <->
  exists i, keys !! i = Some k /\ values !! i = Some a.
Proof.
  intros Hnodup Hlen. unfold dict. rewrite dict_lookup
    by (rewrite fst_zip by lia; assumption).
  rewrite lookup_empty.
  rewrite (elem_of_lookup_zip_with pair keys values (k, a)). split.
  - intros [(i & x & y & [= -> ->] & Hx & Hy)|[_ ?]]; [|discriminate].
    now exists i.
  - intros (i & Hx & Hy). left. now exists i, k, a.
Qed.

Lemma elem_of_range (a b x : Z) : x ∈ py.range a b <-> a <= x < b.
Proof.
  unfold py.range. change map with (@fmap list _) .
  rewrite list_elem_of_fmap. setoid_rewrite elem_of_seq. split.
  - intros (i & -> & Hi). lia.
  - intros Hx. exists (Z.to_nat (x - a)). lia.
Qed.

Lemma NoDup_range (a b : Z) : NoDup (py.range a b).
Proof.
  unfold py.range. apply NoDup_fmap_2; [|apply NoDup_seq].
  intros i j Hij. lia.
Qed.

(** Anonymization renames the vehicles one to one onto the numbers from
    0 to one less than the number of vehicles, whatever the shuffle: the
    mapping has exactly the vehicle ids of the dataframe as keys, sends
    no two of them to the same number and uses every number; each row
    keeps its place and its other columns and gets the number of its
    vehicle, never a missing value. *)
Theorem anonymization_renames_one_to_one (shuffle : list Z -> list Z)
    (df : list (datum Z)) (anonymized : list (datum (option Z)))
    (mapping : gmap Z Z) :
  (forall l, shuffle l ≡ₚ l) ->
  anonymize_data shuffle df = (anonymized, mapping) ->
  length anonymized = length df /\
  (forall k r, df !! k = Some r ->
     exists a,
       mapping !! vehicle_id r = Some a /\
       anonymized !! k
       = Some {| vehicle_id := Some a; latitude := latitude r;
                 longitude := longitude r; timestamp := timestamp r |}) /\
  (forall v, is_Some (mapping !! v) <-> v ∈ map vehicle_id df) /\
  (forall v1 v2 a,
     mapping !! v1 = Some a -> mapping !! v2 = Some a -> v1 = v2) /\
  (forall a,
     (exists v, mapping !! v = Some a) <->
     0 <= a < Z.of_nat (length (py.unique (map vehicle_id df)))).
Proof.
  intros Hshuffle. unfold anonymize_data.
  set (keys := py.unique (map vehicle_id df)).
  set (values := shuffle (py.range 0 (Z.of_nat (length keys)))).
  intros [= <- <-].
  assert (Hperm : values ≡ₚ py.range 0 (Z.of_nat (length keys)))
    by apply Hshuffle.
  assert (Hkeys : NoDup keys) by apply unique_NoDup.
  assert (Hlen : length keys = length values).
  { rewrite (Permutation_length Hperm). unfold py.range.
    rewrite length_map, length_seq. lia. }
  assert (Hvalues : NoDup values).
  { rewrite Hperm. apply NoDup_range. }
  assert (Hin : forall a, a ∈ values <-> 0 <= a < Z.of_nat (length keys)).
  { intros a. rewrite Hperm. apply elem_of_range. }
  assert (Hkey : forall v, v ∈ map vehicle_id df ->
                           exists a, dict (zip keys values) !! v = Some a).
  { intros v Hv. apply unique_elem_of in Hv. fold keys in Hv.
    apply list_elem_of_lookup in Hv as [i Hi].
    destruct (lookup_lt_is_Some_2 values i) as [a Ha].
    { rewrite <- Hlen. now apply lookup_lt_Some with v. }
    exists a. apply dict_zip_lookup; [assumption..|]. now exists i. }
  split; [apply length_map|]. split; [|split; [|split]].
  - intros k r Hr. destruct (Hkey (vehicle_id r)) as [a Ha].
    { apply list_elem_of_fmap. exists r. split; [reflexivity|].
      now apply list_elem_of_lookup_2 with k. }
    exists a. split; [exact Ha|].
    change map with (@fmap list _). rewrite list_lookup_fmap, Hr. cbn.
    now rewrite Ha.
  - intros v. split.
    + intros [a Ha]. apply dict_zip_lookup in Ha as (i & Hi & _);
        [|assumption..].
      apply unique_elem_of. now apply list_elem_of_lookup_2 with i.
    + intros Hv. destruct (Hkey v Hv) as [a Ha]. now exists a.
  - intros v1 v2 a H1 H2.
    apply dict_zip_lookup in H1 as (i1 & Hk1 & Ha1); [|assumption..].
    apply dict_zip_lookup in H2 as (i2 & Hk2 & Ha2); [|assumption..].
    assert (i1 = i2) as -> by apply (NoDup_lookup values i1 i2 a Hvalues Ha1 Ha2).
    congruence.
  - intros a. rewrite <- Hin. split.
    + intros [v Hv]. apply dict_zip_lookup in Hv as (i & _ & Ha);
        [|assumption..].
      now apply list_elem_of_lookup_2 with i.
    + intros Ha. apply list_elem_of_lookup in Ha as [i Hi].
      destruct (lookup_lt_is_Some_2 keys i) as [v Hv].
      { rewrite Hlen. now apply lookup_lt_Some with a. }
      exists v. apply dict_zip_lookup; [assumption..|]. now exists i.
Qed.

End Anonymization.

Lemma anonymization_renames_one_to_one_witness :
  exists anonymized mapping,
    mobility.anonymize_data (@rev Z) trace = (anonymized, mapping) /\
    forall v1 v2 a,
      mapping !! v1 = Some a -> mapping !! v2 = Some a -> v1 = v2.
Proof.
  eexists _, _. split; [reflexivity|].
  eapply (anonymization_renames_one_to_one (@rev Z) trace).
  - intros l. symmetry. apply Permutation_rev.
  - reflexivity.
Defined.
